(** * go-s3fs: the object-store client, the inode tree builder and the
      accounted reader, embedded from the Go sources.

    The embedding
    - [GoInt]    : Go's fixed-width integers ([int], [int64]) as [Z] with
                   explicit wrap-around.
    - [Node]     : [S3Node], the accounted reader of the [s3] package
                   (checkReadBefore, checkReadAfter, Read, Close, Done).
    - [Backoff]  : [ExponentialJitterBackoff.BackoffDelay], with [float64] as
                   IEEE 754 binary64.
    - [Filepath] : [filepath.Clean], [filepath.Split], [strings.Split].
    - [Client]   : [s3Client] (validateBucket, CreateBucket, DeleteBucket,
                   DeleteObject, HeadObject, GetObject) over an abstract
                   backend that records the requests it receives.
    - [Tree]     : [s3Root.OnAdd], the builder of the inode tree.
    - [ClientMore] : [reverse], [ListObject], [UploadObject], over the
                   backend extended by their requests.
    - [FilepathMore], [TreeMore] : predicates on paths and on tree paths.
    - [Options]  : [ParseOption].
    - [S3File]   : the file node [s3File] (Open, Getattr, Read).
    - [Policy]   : the bucket policy document [BucketPolicy].
    - [NodeMore] : [WithBuffer], [UpdateReader], [shortenName].
    - [Fs]       : [fs.GetModifyWindow].
    - [ConfigUI] : the questions of the configuration dialogue
                   (ChooseNumber, Enter, Choose).

    The properties follow in [GoIntFacts], [NodeFacts], [ClientFacts],
    [TreeFacts] and [BackoffFacts], and for the further code in
    [FilepathFacts], [ClientMoreFacts], [TreeMoreFacts], [OptionsFacts],
    [S3FileFacts], [PolicyFacts], [NodeMoreFacts], [FsFacts] and
    [ConfigUIFacts]. *)

From Stdlib Require Import ZArith List String Ascii Bool Lia SpecFloat Permutation.
Import ListNotations.

Open Scope Z_scope.

(** ** Go integers *)
Module GoInt.

(** [int64(z)]: the two's complement value of the low 64 bits of [z]. *)
Definition int64 (z : Z) : Z := (z + 2 ^ 63) mod 2 ^ 64 - 2 ^ 63.

(** [int] is 64 bits wide on the platforms the file system is built for
    (linux/amd64, linux/arm64). *)
Definition int (z : Z) : Z := int64 z.

Definition in_int64 (z : Z) : Prop := - 2 ^ 63 <= z < 2 ^ 63.

Definition minInt64 : Z := - 2 ^ 63.
Definition maxInt64 : Z := 2 ^ 63 - 1.

End GoInt.

(** ** The accounted reader [S3Node] *)
Module Node.
Import GoInt.

(** Go [error] values that reach this file; [option error] is a Go [error],
    [None] being [nil]. *)
Inductive error : Type :=
| Canceled                (* context.Canceled *)
| DeadlineExceeded        (* context.DeadlineExceeded *)
| EOF                     (* io.EOF *)
| StreamError (code : nat) (* any error of the wrapped stream *).

(** What a Go call does: it returns, or it panics. *)
Inductive outcome (A : Type) : Type :=
| Ret (a : A)
| Panic (msg : string).
Arguments Ret {A} a.
Arguments Panic {A} msg.

(** A [chan struct{}] that is only ever closed. *)
Inductive chan : Type := ChanNil | ChanOpen | ChanClosed.

(** The builtin [close(ch)]. *)
Definition go_close (c : chan) : outcome chan :=
  match c with
  | ChanNil => Panic "close of nil channel"
  | ChanOpen => Ret ChanClosed
  | ChanClosed => Panic "close of closed channel"
  end.

(** [context.Context]: all the reader asks of it is [ctx.Err()]. *)
Record Context : Type := { ctx_Err : option error }.

(** The streams a handle points to ([io.Reader], [io.Writer], [io.Closer]) are
    objects outside the handle: they live in a world [W] and are named by
    references, so that [in], [origIn] and [close] may alias. *)
Record IO : Type := {
  W : Type;
  ref : Type;
  (* in.Read(p), by len(p) *)
  io_Read : ref -> Z -> W -> (Z * option error) * W;
  (* w.Write(p), by len(p) *)
  io_Write : ref -> Z -> W -> (Z * option error) * W;
  (* c.Close() *)
  io_Close : ref -> W -> option error * W
}.

Section WithIO.
Context (io : IO).

(** The fields of [S3Node].  [mu] is left out: every method below holds it
    from entry to exit, so each is one atomic step on the handle.  [ci] is
    read by [WithBuffer] only. *)
Record S3Node : Type := {
  in_ : ref io;
  ctx : Context;
  origIn : ref io;
  close : option (ref io);
  size : Z;
  name : string;
  closed : bool;
  exit : chan;
  withBuf : bool
}.

Definition set_closed (sno : S3Node) (b : bool) : S3Node :=
  {| in_ := in_ sno; ctx := ctx sno; origIn := origIn sno; close := close sno;
     size := size sno; name := name sno; closed := b; exit := exit sno;
     withBuf := withBuf sno |}.

Definition set_exit (sno : S3Node) (c : chan) : S3Node :=
  {| in_ := in_ sno; ctx := ctx sno; origIn := origIn sno; close := close sno;
     size := size sno; name := name sno; closed := closed sno; exit := c;
     withBuf := withBuf sno |}.

(** [checkReadBefore]: the named result [bytesUntilLimit] is never assigned,
    so the value returned on the non-cancelled path is its zero value. *)
Definition checkReadBefore (sno : S3Node) : Z * option error :=
  let bytesUntilLimit := 0 in
  match ctx_Err (ctx sno) with
  | Some err => (0, Some err)
  | None => (bytesUntilLimit, None)
  end.

(** [checkReadAfter]. *)
Definition checkReadAfter (bytesUntilLimit n : Z) (err : option error)
  : Z * option error :=
  let bytesUntilLimit := int64 (bytesUntilLimit - int64 n) in
  let n :=
    if bytesUntilLimit <? 0 then
      let n := int (n + int bytesUntilLimit) in
      if n <? 0 then 0 else n
    else n in
  (n, err).

(** [read]: [lenp] is [len(p)]. *)
Definition read (sno : S3Node) (rd : ref io) (lenp : Z) (w : W io)
  : (Z * option error) * W io :=
  match checkReadBefore sno with
  | (bytesUntilLimit, None) =>
      let '((n, err), w') := io_Read io rd lenp w in
      (checkReadAfter bytesUntilLimit n err, w')
  | (_, Some err) => ((0, Some err), w)
  end.

(** [Read]. *)
Definition Read (sno : S3Node) (lenp : Z) (w : W io)
  : (Z * option error) * W io :=
  read sno (in_ sno) lenp w.

(** [accountWriteTo.Write], the writer [WriteTo] hands to [io.Copy] or to the
    stream's own [WriteTo]; [wr] is the wrapped [io.Writer]. *)
Definition accountWriteTo_Write (sno : S3Node) (wr : ref io) (lenp : Z)
  (w : W io) : (Z * option error) * W io :=
  match checkReadBefore sno with
  | (bytesUntilLimit, None) =>
      let '((n, err), w') := io_Write io wr lenp w in
      (checkReadAfter bytesUntilLimit n err, w')
  | (_, Some err) => ((0, Some err), w)
  end.

(** [AccountRead]: the clamped [n] is a local and is dropped. *)
Definition AccountRead (sno : S3Node) (n : Z) : option error :=
  match checkReadBefore sno with
  | (bytesUntilLimit, None) => snd (checkReadAfter bytesUntilLimit n None)
  | (_, Some err) => Some err
  end.

(** [Close]. *)
Definition Close (sno : S3Node) (w : W io) : (option error * S3Node) * W io :=
  if closed sno then ((None, sno), w)
  else
    let sno := set_closed sno true in
    match close sno with
    | None => ((None, sno), w)
    | Some c => let '(err, w') := io_Close io c w in ((err, sno), w')
    end.

(** [Done]. *)
Definition Done (sno : S3Node) : outcome S3Node :=
  match go_close (exit sno) with
  | Ret c => Ret (set_exit sno c)
  | Panic msg => Panic msg
  end.

End WithIO.

Arguments in_ {io} _.
Arguments ctx {io} _.
Arguments close {io} _.
Arguments closed {io} _.
Arguments exit {io} _.
Arguments set_closed {io} _ _.
Arguments set_exit {io} _ _.
Arguments checkReadBefore {io} _.
Arguments read {io} _ _ _ _.
Arguments Read {io} _ _ _.
Arguments accountWriteTo_Write {io} _ _ _ _.
Arguments AccountRead {io} _ _.
Arguments Close {io} _ _.
Arguments Done {io} _.

(** A stream that serves five bytes per read from an in-memory source and
    whose [Close] only counts the calls (an [io.NopCloser] over a reader). *)
Definition nopIO : IO :=
  {| W := nat; ref := unit;
     io_Read := fun _ lenp w => ((Z.min lenp 5, None), w);
     io_Write := fun _ lenp w => ((lenp, None), w);
     io_Close := fun _ w => (None, S w) |}.

Definition nopNode : S3Node nopIO :=
  Build_S3Node nopIO tt {| ctx_Err := None |} tt (Some tt) 5 "obj" false
    ChanOpen false.

End Node.

(** ** The retry policy: [ExponentialJitterBackoff] *)
Module Backoff.
Import GoInt.


















End Backoff.

(** ** [path/filepath] and [strings], as far as the client and the tree
       builder use them (Unix separators) *)
Module Filepath.
Open Scope string_scope.

Definition slash : ascii := "/"%char.

(** [strings.Split(s, "/")]. *)
Fixpoint splitSlash (s : string) : list string :=
  match s with
  | EmptyString => [EmptyString]
  | String c r =>
      if Ascii.eqb c slash then EmptyString :: splitSlash r
      else match splitSlash r with
           | h :: t => String c h :: t
           | [] => [String c EmptyString]
           end
  end.

(** [strings.Join(l, "/")]. *)
Fixpoint joinSlash (l : list string) : string :=
  match l with
  | [] => ""
  | [x] => x
  | x :: r => x ++ "/" ++ joinSlash r
  end.

(** The element stack of [filepath.Clean]: empty and [.] elements are
    dropped, [..] removes the last real element, stays when there is none
    and the path is not rooted, and is dropped at the root. *)
Fixpoint cleanElems (rooted : bool) (stack : list string) (elems : list string)
  : list string :=
  match elems with
  | [] => stack
  | e :: r =>
      if String.eqb e "" || String.eqb e "." then cleanElems rooted stack r
      else if String.eqb e ".." then
        match stack with
        | top :: below =>
            if String.eqb top ".." then cleanElems rooted (e :: stack) r
            else cleanElems rooted below r
        | [] => if rooted then cleanElems rooted [] r
                else cleanElems rooted [e] r
        end
      else cleanElems rooted (e :: stack) r
  end.

(** [filepath.Clean]: the shortest path naming the same file by purely
    lexical processing; the empty result is [.]. *)
Definition Clean (path : string) : string :=
  match path with
  | EmptyString => "."
  | String c _ =>
      let rooted := Ascii.eqb c slash in
      let out := joinSlash (rev (cleanElems rooted [] (splitSlash path))) in
      if rooted then "/" ++ out
      else if String.eqb out "" then "." else out
  end.

(** [filepath.Split]: the path is cut after its last separator. *)
Fixpoint Split (path : string) : string * string :=
  match path with
  | EmptyString => ("", "")
  | String c r =>
      let '(dir, file) := Split r in
      if String.eqb dir "" then
        if Ascii.eqb c slash then (String c "", r) else ("", String c r)
      else (String c dir, file)
  end.

End Filepath.

(** ** The object-store client [s3Client] *)
Module Client.
Import Filepath.
Open Scope string_scope.

Definition MAX_GOROUTES : nat := 32.

(** What the SDK reports: the two modelled S3 error types that the client
    tells apart with [errors.As], any other [smithy.APIError], and errors
    that are no API error at all. *)
Inductive sdkError : Type :=
| NoSuchBucket
| NoSuchKey
| BucketAlreadyExists
| APIError (code : string)
| TransportError (msg : string).

Inductive error : Type :=
| ErrInvalidBucketName     (* fmt.Errorf("Invalid Bucket Name") *)
| ErrBucketExisted         (* fmt.Errorf("Bucket Does not Exists") *)
| ErrUnknownCephRGW        (* fmt.Errorf("Unknown Error In Ceph RGW") *)
| ErrSDK (e : sdkError).   (* an SDK error handed on as it is *)

Record Bucket : Type := { Name : string }.

Record Object : Type := {
  obj_Bucket : string;
  obj_Name : string;
  obj_Prefix : string;
  obj_Size : Z;
  obj_Data : Z
}.

(** [s3v2.ListObjectsV2Output], the fields read. *)
Record ListObjectsV2Output : Type := {
  Contents : list string;                 (* the keys of the page *)
  IsTruncated : bool;
  ContinuationToken : option string;      (* the token of the request *)
  NextContinuationToken : option string
}.

(** The requests the client sends to the backend. *)
Inductive call : Type :=
| HeadBucketCall (bucket : string)
| CreateBucketCall (bucket : string)
| ListObjectsV2Call (bucket : string) (token : option string)
| DeleteObjectCall (bucket key : string)
| DeleteBucketCall (bucket : string)
| HeadObjectCall (bucket key : string)
| DownloadCall (bucket key : string) (buflen : Z).

(** The backend behind the SDK: a state and, per request, an answer and the
    next state. *)
Record Backend : Type := {
  St : Type;
  be_HeadBucket : string -> St -> option sdkError * St;
  be_CreateBucket : string -> St -> option sdkError * St;
  be_ListObjectsV2 :
    string -> option string -> St -> (ListObjectsV2Output * option sdkError) * St;
  be_DeleteObject : string -> string -> St -> option sdkError * St;
  be_DeleteBucket : string -> St -> option sdkError * St;
  be_HeadObject : string -> string -> St -> (Z * option sdkError) * St;
  (* downloader.Download: bytes written and error *)
  be_Download : string -> string -> St -> (Z * option sdkError) * St
}.

(** How a call of a client method ends. *)
Inductive outcome (A : Type) : Type :=
| Returns (a : A)
| Panics (msg : string)
| Exits              (* log.Fatalf: the process exits *)
| Blocks             (* the calling goroutine waits for ever *)
| OutOfFuel.         (* the model's bound on the page loop was reached *)
Arguments Returns {A} a.
Arguments Panics {A} msg.
Arguments Exits {A}.
Arguments Blocks {A}.
Arguments OutOfFuel {A}.

Section WithBackend.
Context (B : Backend).

(** The world of a call: the backend state and the requests sent so far. *)
Record World : Type := { st : St B; calls : list call }.

Definition M (A : Type) : Type := World -> outcome A * World.

Definition ret {A} (a : A) : M A := fun w => (Returns a, w).

Definition bind {A C} (m : M A) (k : A -> M C) : M C :=
  fun w =>
    match m w with
    | (Returns a, w') => k a w'
    | (Panics msg, w') => (Panics msg, w')
    | (Exits, w') => (Exits, w')
    | (Blocks, w') => (Blocks, w')
    | (OutOfFuel, w') => (OutOfFuel, w')
    end.

Definition stop {A} (o : outcome A) : M A := fun w => (o, w).

(** The world after the requests [cs] were sent and left the backend in
    state [s]. *)
Definition sent (w : World) (cs : list call) (s : St B) : World :=
  {| st := s; calls := calls w ++ cs |}.

(** One request: it is recorded and answered by the backend. *)
Definition request {A} (c : call) (f : St B -> A * St B) : M A :=
  fun w =>
    let '(a, s') := f (st w) in
    (Returns a, {| st := s'; calls := calls w ++ [c] |}).

Notation "x <- m ;; k" := (bind m (fun x => k))
  (at level 61, m at next level, right associativity).
Notation "' p <- m ;; k" := (bind m (fun x => match x with p => k end))
  (at level 61, p pattern, m at next level, right associativity).

Definition liftErr (e : option sdkError) : option error := option_map ErrSDK e.

(** [HeadBucket]. *)
Definition HeadBucket (bucket : string) : M (bool * option error) :=
  err <- request (HeadBucketCall bucket) (be_HeadBucket B bucket) ;;
  match err with
  | Some e => ret (false, Some (ErrSDK e))
  | None => ret (true, None)
  end.

(** [validateBucket]: -1 for a name of at most two bytes, 0 when the probe
    fails, 1 otherwise. *)
Definition validateBucket (name : string) : M Z :=
  if (Z.of_nat (String.length name) <=? 2)%Z then ret (-1)%Z
  else
    '(_, err) <- HeadBucket name ;;
    match err with
    | Some _ => ret 0%Z
    | None => ret 1%Z
    end.

(** [CreateBucket]: the second arm of the [if] probes the bucket again. *)
Definition CreateBucket (user name : string) : M (option Bucket * option error) :=
  v <- validateBucket name ;;
  if (v =? -1)%Z then ret (None, Some ErrInvalidBucketName)
  else
    v' <- validateBucket name ;;
    if (v' =? 1)%Z then ret (None, Some ErrBucketExisted)
    else
      err <- request (CreateBucketCall name) (be_CreateBucket B name) ;;
      match err with
      | Some e => ret (None, Some (ErrSDK e))
      | None => ret (Some {| Name := name |}, None)
      end.

(** [DeleteObject]. *)
Definition DeleteObject (user bucket path : string) : M (option error) :=
  v <- validateBucket bucket ;;
  if negb (v =? 1)%Z then ret (Some ErrInvalidBucketName)
  else
    let cpath := Clean ("./" ++ path) in
    err <- request (DeleteObjectCall bucket cpath) (be_DeleteObject B bucket cpath) ;;
    ret (liftErr err).

(** [HeadObject]: a failed bucket check gives length 0 and no error. *)
Definition HeadObject (userID bucket path : string) : M (Z * option error) :=
  v <- validateBucket bucket ;;
  if negb (v =? 1)%Z then ret (0%Z, None)
  else
    let cpath := Clean ("./" ++ path) in
    '(len, err) <- request (HeadObjectCall bucket cpath) (be_HeadObject B bucket cpath) ;;
    match err with
    | Some e => ret (0%Z, Some (ErrSDK e))
    | None => ret (len, None)
    end.

(** [GetObject]: [make([]byte, contentLength)] panics on a negative length;
    the download writes into a buffer over that slice. *)
Definition GetObject (userID bucket path : string) : M (option Object * option error) :=
  v <- validateBucket bucket ;;
  if negb (v =? 1)%Z then ret (None, Some ErrInvalidBucketName)
  else
    let cpath := Clean ("./" ++ path) in
    let '(dir, file_name) := Split cpath in
    '(contentLength, err) <- HeadObject userID bucket path ;;
    match err with
    | Some e => ret (None, Some e)
    | None =>
        if (contentLength <? 0)%Z then stop (Panics "makeslice: len out of range")
        else
          '(numBytes, err) <-
            request (DownloadCall bucket cpath contentLength) (be_Download B bucket cpath) ;;
          let object := {| obj_Bucket := bucket; obj_Name := file_name;
                           obj_Prefix := dir; obj_Size := 0; obj_Data := 0 |} in
          match err with
          | Some NoSuchBucket => ret (None, Some (ErrSDK NoSuchBucket))
          | Some NoSuchKey => ret (Some object, None)
          | Some e => ret (None, Some (ErrSDK e))
          | None =>
              if negb (numBytes =? contentLength)%Z then ret (None, Some ErrUnknownCephRGW)
              else ret (Some object, None)
          end
    end.

(** *** [DeleteBucket]

    The page loop makes one [sync.WaitGroup] and one channel [cos] per page.
    For every listed object it adds one to the wait group and starts two
    goroutines: the first sends the result of [DeleteObject] on [cos], the
    second waits for the wait group and then closes [cos].  Nothing ever
    calls [wg.Done].  The caller then ranges over [cos].

    The caller cannot pass the [range] before the first goroutine has sent,
    and no other goroutine sends requests, so the requests of a call are the
    same under every schedule; the model runs each goroutine when the caller
    waits for it. *)

(** A channel of errors: the values sent and not yet received, and whether
    it was closed. *)
Record chanErr : Type := { pending : list (option error); isClosed : bool }.

Definition makeChan : chanErr := {| pending := []; isClosed := false |}.

(** [cos <- v] and [close(cos)]; both panic on a closed channel.  The buffer
    of [cos] has room for [MAX_GOROUTES] values and never holds more than
    one, so a send does not wait. *)
Definition send (c : chanErr) (v : option error) : outcome chanErr :=
  if isClosed c then Panics "send on closed channel"
  else Returns {| pending := pending c ++ [v]; isClosed := isClosed c |}.

Definition closeChan (c : chanErr) : outcome chanErr :=
  if isClosed c then Panics "close of closed channel"
  else Returns {| pending := pending c; isClosed := true |}.

(** How the statement [for ret := range cos { if ret != nil { return err } }]
    ends. *)
Inductive rangeEnd : Type :=
| RangeReturn (e : option error)   (* [return err] *)
| RangeDone (c : chanErr)          (* [cos] closed and drained *)
| RangeWaits.                      (* [cos] empty and open: the receive waits *)

(** The [range] over the values of [cos]; [err] is the variable the body
    returns, the error of the listing. *)
Fixpoint rangeCos (err : option error) (vals : list (option error)) (closed : bool)
  : rangeEnd :=
  match vals with
  | ret :: rest =>
      match ret with
      | Some _ => RangeReturn err
      | None => rangeCos err rest closed
      end
  | [] => if closed then RangeDone {| pending := []; isClosed := true |}
          else RangeWaits
  end.

(** The body of [for _, item := range out.Contents], for the items in turn;
    [wg] is the counter of the wait group. *)
Fixpoint deleteItems (user name : string) (err : option error)
  (items : list string) (wg : nat) (cos : chanErr) : M (option (option error) * nat) :=
  match items with
  | [] => ret (None, wg)
  | key :: rest =>
      let wg := S wg in                                        (* wg.Add(1) *)
      r <- DeleteObject user name key ;;                       (* go func: cos <- ... *)
      cos <- stop (send cos r) ;;
      cos <- stop (if Nat.eqb wg 0 then closeChan cos  (* go func: wg.Wait(); close(cos) *)
                   else Returns cos) ;;
      match rangeCos err (pending cos) (isClosed cos) with
      | RangeReturn e => ret (Some e, wg)
      | RangeDone cos' => deleteItems user name err rest wg cos'
      | RangeWaits => stop Blocks
      end
  end.

(** The page loop [for { ... }]; [fuel] bounds the number of pages.  The
    token of the next request is [out.ContinuationToken]. *)
Fixpoint deletePages (fuel : nat) (user name : string) (token : option string)
  : M (option (option error)) :=
  match fuel with
  | O => stop OutOfFuel
  | S fuel' =>
      '(out, sdkErr) <-
        request (ListObjectsV2Call name token) (be_ListObjectsV2 B name token) ;;
      let err := liftErr sdkErr in
      match err with
      | Some _ => stop Exits                                   (* log.Fatalf *)
      | None =>
          '(returned, wg) <- deleteItems user name err (Contents out) O makeChan ;;
          match returned with
          | Some e => ret (Some e)
          | None =>
              if negb (Nat.eqb wg 0) then stop Blocks          (* wg.Wait() *)
              else if IsTruncated out
                   then deletePages fuel' user name (ContinuationToken out)
                   else ret None
          end
      end
  end.

(** [DeleteBucket]. *)
Definition DeleteBucket (fuel : nat) (user name : string) : M (option error) :=
  v <- validateBucket name ;;
  if negb (v =? 1)%Z then ret (Some ErrInvalidBucketName)
  else
    returned <- deletePages fuel user name None ;;
    match returned with
    | Some e => ret e
    | None =>
        err <- request (DeleteBucketCall name) (be_DeleteBucket B name) ;;
        ret (liftErr err)
    end.

End WithBackend.

Arguments st {B} _.
Arguments calls {B} _.
Arguments sent {B} _ _ _.

(** *** An in-memory backend

    Buckets hold keys with their sizes.  Two knobs make faults: the keys in
    [denied] cannot be deleted, and a download delivers [shortBy] bytes less
    than the object has. *)
Record Store : Type := {
  buckets : list (string * list (string * Z));
  denied : list string;
  shortBy : Z
}.

Fixpoint assoc {A} (k : string) (l : list (string * A)) : option A :=
  match l with
  | [] => None
  | (k', v) :: r => if String.eqb k' k then Some v else assoc k r
  end.

Fixpoint remove {A} (k : string) (l : list (string * A)) : list (string * A) :=
  match l with
  | [] => []
  | (k', v) :: r => if String.eqb k' k then remove k r else (k', v) :: remove k r
  end.

Definition withBuckets (s : Store) (b : list (string * list (string * Z))) : Store :=
  {| buckets := b; denied := denied s; shortBy := shortBy s |}.

Definition memBackend : Backend :=
  {| St := Store;
     be_HeadBucket := fun b s =>
       match assoc b (buckets s) with
       | Some _ => (None, s)
       | None => (Some (APIError "NotFound"), s)
       end;
     be_CreateBucket := fun b s =>
       match assoc b (buckets s) with
       | Some _ => (Some BucketAlreadyExists, s)
       | None => (None, withBuckets s (buckets s ++ [(b, [])]))
       end;
     be_ListObjectsV2 := fun b token s =>
       match assoc b (buckets s) with
       | Some objs =>
           (({| Contents := map fst objs; IsTruncated := false;
                ContinuationToken := token; NextContinuationToken := None |},
             None), s)
       | None =>
           (({| Contents := []; IsTruncated := false;
                ContinuationToken := token; NextContinuationToken := None |},
             Some NoSuchBucket), s)
       end;
     be_DeleteObject := fun b k s =>
       match assoc b (buckets s) with
       | Some objs =>
           if existsb (String.eqb k) (denied s) then (Some (APIError "AccessDenied"), s)
           else (None, withBuckets s ((b, remove k objs) :: remove b (buckets s)))
       | None => (Some NoSuchBucket, s)
       end;
     be_DeleteBucket := fun b s =>
       match assoc b (buckets s) with
       | Some [] => (None, withBuckets s (remove b (buckets s)))
       | Some _ => (Some (APIError "BucketNotEmpty"), s)
       | None => (Some NoSuchBucket, s)
       end;
     be_HeadObject := fun b k s =>
       match assoc b (buckets s) with
       | Some objs =>
           match assoc k objs with
           | Some size => ((size, None), s)
           | None => ((0%Z, Some (APIError "NotFound")), s)
           end
       | None => ((0%Z, Some (APIError "NotFound")), s)
       end;
     be_Download := fun b k s =>
       match assoc b (buckets s) with
       | Some objs =>
           match assoc k objs with
           | Some size => (((size - shortBy s)%Z, None), s)
           | None => ((0%Z, Some NoSuchKey), s)
           end
       | None => ((0%Z, Some NoSuchBucket), s)
       end |}.

(** A bucket with two objects; [k1] cannot be deleted. *)
Definition store1 : Store :=
  {| buckets := [("my-data", [("k1", 3%Z); ("k2", 5%Z)])];
     denied := ["k1"]; shortBy := 0 |}.


Definition world0 (s : Store) : World memBackend := Build_World memBackend s [].

(** The in-memory backend behind a connection on which one bucket probe
    times out: the state counts the [HeadBucket] requests, and the request
    with number [k] (from 0) fails; every other request goes through. *)
Definition through {A} (f : Store -> A * Store) (sn : Store * nat)
  : A * (Store * nat) :=
  let '(a, s') := f (fst sn) in (a, (s', snd sn)).

Definition flaky (k : nat) : Backend :=
  {| St := Store * nat;
     be_HeadBucket := fun b sn =>
       if Nat.eqb (snd sn) k
       then (Some (TransportError "timeout"), (fst sn, S (snd sn)))
       else let '(e, s') := be_HeadBucket memBackend b (fst sn) in
            (e, (s', S (snd sn)));
     be_CreateBucket := fun b => through (be_CreateBucket memBackend b);
     be_ListObjectsV2 := fun b t => through (be_ListObjectsV2 memBackend b t);
     be_DeleteObject := fun b k' => through (be_DeleteObject memBackend b k');
     be_DeleteBucket := fun b => through (be_DeleteBucket memBackend b);
     be_HeadObject := fun b k' => through (be_HeadObject memBackend b k');
     be_Download := fun b k' => through (be_Download memBackend b k') |}.

Definition flakyWorld (k : nat) (s : Store) : World (flaky k) :=
  Build_World (flaky k) (s, O) [].

End Client.

(** ** The inode tree builder [s3Root.OnAdd] *)
Module Tree.
Import Filepath.
Open Scope string_scope.

(** The entries [OnAdd] ranges over: what it reads of each is [f.Name] and
    [f.FileInfo().IsDir()]. *)
Record File : Type := { Name : string; IsDir : bool }.

Definition S_IFDIR : Z := 16384.   (* fuse.S_IFDIR = 0o040000 *)

(** [fs.StableAttr]; the zero mode stands for a regular file. *)
Record StableAttr : Type := { Mode : Z }.

(** The operations object an inode is made with: [&fs.Inode{}] for a
    directory, [&s3File{file: f}] for a file. *)
Inductive Ops : Type :=
| InodeOps
| S3FileOps (file : File).

(** Modelled from the spec: [fs.Inode] of the repository's [fs] package is
    not among the sources.  A node holds an insertion-ordered mapping from
    child name to child node, unique per parent. *)
#[local] Unset Elimination Schemes.
Inductive Inode : Type :=
| MkInode (ops : Ops) (attr : StableAttr) (children : list (string * Inode)).
#[local] Set Elimination Schemes.

Definition ops (n : Inode) : Ops := match n with MkInode o _ _ => o end.
Definition attr (n : Inode) : StableAttr := match n with MkInode _ a _ => a end.
Definition children (n : Inode) : list (string * Inode) :=
  match n with MkInode _ _ c => c end.

Definition isDirectory (n : Inode) : bool := (Mode (attr n) =? S_IFDIR)%Z.
Definition isFile (n : Inode) : bool := (Mode (attr n) =? 0)%Z.

(** Modelled from the spec: [NewPersistentInode] of the absent [fs.Inode]
    makes a node of the given kind that has no children yet. *)
Definition NewPersistentInode (o : Ops) (a : StableAttr) : Inode := MkInode o a [].

Fixpoint lookup (name : string) (l : list (string * Inode)) : option Inode :=
  match l with
  | [] => None
  | (k, v) :: r => if String.eqb k name then Some v else lookup name r
  end.

(** The entry of [name] is set to [ch]: in its place when the name is
    there, at the end otherwise. *)
Fixpoint setEntry (name : string) (ch : Inode) (l : list (string * Inode))
  : list (string * Inode) :=
  match l with
  | [] => [(name, ch)]
  | (k, v) :: r =>
      if String.eqb k name then (name, ch) :: r else (k, v) :: setEntry name ch r
  end.

(** Modelled from the spec: [GetChild] of the absent [fs.Inode] looks the
    child up by the exact component string; [None] is Go's [nil]. *)
Definition GetChild (n : Inode) (name : string) : option Inode :=
  lookup name (children n).

(** Modelled from the spec: [AddChild] of the absent [fs.Inode] enters the
    child under the name; an entry that is there is kept when [overwrite] is
    false and replaced when it is true.  The result tells whether the child
    was entered. *)
Definition AddChild (n : Inode) (name : string) (ch : Inode) (overwrite : bool)
  : Inode * bool :=
  match lookup name (children n), overwrite with
  | Some _, false => (n, false)
  | _, _ => (MkInode (ops n) (attr n) (setEntry name ch (children n)), true)
  end.

(** The inner loop of [OnAdd] and the two statements after it, from the
    node [p] on.  [p = ch] moves a pointer into the tree and what follows
    changes the node it points to; here the changed child is stored back
    under its name, which is where the pointer leads. *)
Fixpoint attach (p : Inode) (components : list string) (base : string) (f : File)
  : Inode :=
  match components with
  | [] =>
      let ch := NewPersistentInode (S3FileOps f) {| Mode := 0 |} in
      fst (AddChild p base ch true)
  | component :: rest =>
      if Nat.eqb (String.length component) 0 then attach p rest base f
      else
        match GetChild p component with
        | None =>
            let ch := NewPersistentInode InodeOps {| Mode := S_IFDIR |} in
            fst (AddChild p component (attach ch rest base f) true)
        | Some ch =>
            MkInode (ops p) (attr p) (setEntry component (attach ch rest base f) (children p))
        end
  end.

(** The body of the outer loop for one entry. *)
Definition addFile (root : Inode) (f : File) : Inode :=
  if IsDir f then root
  else
    let '(dir, base) := Split (Clean (Name f)) in
    attach root (splitSlash dir) base f.

(** [OnAdd]: the entries are added to the root in turn. *)
Definition OnAdd (root : Inode) (files : list File) : Inode :=
  fold_left addFile files root.

(** The root before [OnAdd] runs. *)
Definition emptyRoot : Inode := MkInode InodeOps {| Mode := S_IFDIR |} [].

Definition key (name : string) : File := {| Name := name; IsDir := false |}.

Definition fileNode (name : string) : Inode :=
  MkInode (S3FileOps (key name)) {| Mode := 0 |} [].



(** No name occurs twice among the children of a node, at any depth. *)
Fixpoint uniqueNames (n : Inode) : Prop :=
  match n with
  | MkInode _ _ c =>
      NoDup (map fst c) /\
      (fix all (l : list (string * Inode)) : Prop :=
         match l with
         | [] => True
         | (_, ch) :: r => uniqueNames ch /\ all r
         end) c
  end.


(** The three keys of the example. *)
Definition threeKeys : list File :=
  [key "a/b/c.txt"; key "a/b/d.txt"; key "a/e.txt"].

(** The tree the example asks for: under the root one directory [a]; under
    [a] a directory [b] and the file [e.txt]; under [b] the files [c.txt]
    and [d.txt]; nothing else.  The order of the children varies with the
    order of the keys. *)
Definition exampleShape (t : Inode) : Prop :=
  exists a b,
    isDirectory t = true /\ children t = [("a", a)] /\
    isDirectory a = true /\
    Permutation (children a) [("b", b); ("e.txt", fileNode "a/e.txt")] /\
    isDirectory b = true /\
    Permutation (children b)
      [("c.txt", fileNode "a/b/c.txt"); ("d.txt", fileNode "a/b/d.txt")].

End Tree.

(** ** More of [s3Client]: [reverse], [ListObject], [UploadObject] *)
Module ClientMore.
Import Filepath Client.
Open Scope string_scope.

(** *** [reverse]

    The function works on [r := []rune(s)] and returns [string(r)]; the
    model is the loop on the rune slice, for any type of runes. *)
Section Reverse.
Context {rune : Type}.

(** [r[i] = x] on a slice; out of range the Go statement panics. *)
Fixpoint store (r : list rune) (i : nat) (x : rune) : option (list rune) :=
  match r, i with
  | [], _ => None
  | _ :: t, O => Some (x :: t)
  | h :: t, S i' => option_map (cons h) (store t i' x)
  end.

(** [r[i], r[j] = r[j], r[i]]: both elements are read, then both written. *)
Definition swap (r : list rune) (i j : nat) : option (list rune) :=
  match nth_error r i, nth_error r j with
  | Some a, Some b =>
      match store r i b with
      | Some r' => store r' j a
      | None => None
      end
  | _, _ => None
  end.

(** [for i, j := 0, len(r)-1; i < len(r)/2; i, j = i+1, j-1 { swap }]: the
    state of the loop after the initialisation; [fuel] bounds the number of
    rounds, [None] is an index out of range. *)
Fixpoint reverseLoop (fuel : nat) (r : list rune) (i j : nat) : option (list rune) :=
  match fuel with
  | O => Some r
  | S fuel' =>
      if Nat.ltb i (Nat.div (List.length r) 2) then
        match swap r i j with
        | Some r' => reverseLoop fuel' r' (i + 1) (j - 1)
        | None => None
        end
      else Some r
  end.

(** [reverse]; [j] starts at [len(r) - 1], which is only read when the slice
    has two runes or more. *)
Definition reverse (r : list rune) : option (list rune) :=
  reverseLoop (List.length r) r 0 (List.length r - 1).

End Reverse.

(** *** Listing and upload

    The two methods send requests the record [Backend] does not have; they
    run over a backend extended by them and a record of requests that
    includes them. *)
Inductive xcall : Type :=
| Base (c : call)
| ListObjectsCall (bucket prefix : string)
| UploadCall (bucket key : string).

Record BackendX : Type := {
  base :> Backend;
  (* client.ListObjects: the keys listed, and the error *)
  be_ListObjects : string -> string -> St base -> (list string * option sdkError) * St base;
  (* uploader.Upload *)
  be_Upload : string -> string -> St base -> option sdkError * St base
}.

Section WithBackendX.
Context (B : BackendX).

Record WorldX : Type := { stX : St B; callsX : list xcall }.

Definition MX (A : Type) : Type := WorldX -> outcome A * WorldX.

Definition retX {A} (a : A) : MX A := fun w => (Returns a, w).

Definition bindX {A C} (m : MX A) (k : A -> MX C) : MX C :=
  fun w =>
    match m w with
    | (Returns a, w') => k a w'
    | (Panics msg, w') => (Panics msg, w')
    | (Exits, w') => (Exits, w')
    | (Blocks, w') => (Blocks, w')
    | (OutOfFuel, w') => (OutOfFuel, w')
    end.

(** A method of [Client] run from here: its requests are appended to the
    record. *)
Definition lift {A} (m : M B A) : MX A :=
  fun w =>
    let '(o, w') := m (Build_World B (stX w) []) in
    (o, {| stX := st w'; callsX := callsX w ++ map Base (calls w') |}).

Definition requestX {A} (c : xcall) (f : St B -> A * St B) : MX A :=
  fun w =>
    let '(a, s') := f (stX w) in
    (Returns a, {| stX := s'; callsX := callsX w ++ [c] |}).

(** [ListObject]: the output of the request is dropped, and the list
    returned is the nil slice [var list []Object]. *)
Definition ListObject (userID bucket path : string) : MX (list Object * option error) :=
  bindX (lift (validateBucket B bucket)) (fun v =>
  if negb (v =? 1)%Z then retX ([], Some ErrInvalidBucketName)
  else
    let cpath := Clean ("./" ++ path) in
    bindX (requestX (ListObjectsCall bucket cpath) (be_ListObjects B bucket cpath))
      (fun '(_, err) =>
       match err with
       | Some e => retX ([], Some (ErrSDK e))
       | None => let list := [] in retX (list, None)
       end)).

(** [UploadObject]: the object returned has no [Bucket]. *)
Definition UploadObject (userID bucket path : string) : MX (option Object * option error) :=
  bindX (lift (validateBucket B bucket)) (fun v =>
  if negb (v =? 1)%Z then retX (None, Some ErrInvalidBucketName)
  else
    let cpath := Clean ("./" ++ path) in
    let '(dir, file_name) := Split cpath in
    bindX (requestX (UploadCall bucket cpath) (be_Upload B bucket cpath))
      (fun err =>
       match err with
       | Some e => retX (None, Some (ErrSDK e))
       | None => retX (Some {| obj_Bucket := ""; obj_Name := file_name;
                               obj_Prefix := dir; obj_Size := 0; obj_Data := 0 |}, None)
       end)).

End WithBackendX.

Arguments stX {B} _.
Arguments callsX {B} _.

(** The in-memory backend, extended: a listing gives the keys of the bucket
    that start with the prefix, an upload stores the key with size 0. *)
Definition memBackendX : BackendX :=
  {| base := memBackend;
     be_ListObjects := fun b p s =>
       match assoc b (buckets s) with
       | Some objs => ((filter (String.prefix p) (map fst objs), None), s)
       | None => (([], Some NoSuchBucket), s)
       end;
     be_Upload := fun b k s =>
       match assoc b (buckets s) with
       | Some objs =>
           (None, withBuckets s ((b, (k, 0%Z) :: remove k objs) :: remove b (buckets s)))
       | None => (Some NoSuchBucket, s)
       end |}.

Definition worldX0 (s : Store) : WorldX memBackendX := Build_WorldX memBackendX s [].

(** The in-memory backend behind a gateway that answers every listing with
    an empty page marked as truncated; the page carries the token of the
    request. *)
Definition pagingBackend : Backend :=
  {| St := Store;
     be_HeadBucket := be_HeadBucket memBackend;
     be_CreateBucket := be_CreateBucket memBackend;
     be_ListObjectsV2 := fun b token s =>
       (({| Contents := []; IsTruncated := true;
            ContinuationToken := token; NextContinuationToken := Some "next" |},
         None), s);
     be_DeleteObject := be_DeleteObject memBackend;
     be_DeleteBucket := be_DeleteBucket memBackend;
     be_HeadObject := be_HeadObject memBackend;
     be_Download := be_Download memBackend |}.

End ClientMore.

(** ** Predicates on paths *)
Module FilepathMore.
Import Filepath.
Open Scope string_scope.

(** [strings.IndexByte(s, c) >= 0]. *)
Fixpoint contains (c : ascii) (s : string) : bool :=
  match s with
  | EmptyString => false
  | String a r => Ascii.eqb a c || contains c r
  end.

(** An element [Clean] keeps where it is: not empty, not [.], not [..], and
    without separator. *)
Definition isName (e : string) : bool :=
  negb (e =? "") && negb (e =? ".") && negb (e =? "..") && negb (contains slash e).

Definition isDotDot (e : string) : bool := e =? "..".

(** The stack of a cleaned relative path, last element on top: names above,
    [..] elements below them. *)
Fixpoint cleanStack (stack : list string) : bool :=
  match stack with
  | [] => true
  | e :: below =>
      if isDotDot e then forallb isDotDot below
      else isName e && cleanStack below
  end.

End FilepathMore.

(** ** Paths in the inode tree *)
Module TreeMore.
Import Filepath Tree.
Open Scope string_scope.




End TreeMore.

(** ** The client options: [ParseOption] *)
Module Options.
Import Node.
Open Scope string_scope.

Record Option : Type := {
  URL : string;
  ExternalURL : string;
  Region : string;
  AccessKey : string;
  SecretKey : string;
  Token : string
}.

(** [Option{}]. *)
Definition zeroOption : Option :=
  {| URL := ""; ExternalURL := ""; Region := ""; AccessKey := ""; SecretKey := "";
     Token := "" |}.

Definition set_URL (o : Option) (v : string) : Option :=
  {| URL := v; ExternalURL := ExternalURL o; Region := Region o;
     AccessKey := AccessKey o; SecretKey := SecretKey o; Token := Token o |}.

Definition set_AccessKey (o : Option) (v : string) : Option :=
  {| URL := URL o; ExternalURL := ExternalURL o; Region := Region o;
     AccessKey := v; SecretKey := SecretKey o; Token := Token o |}.

Definition set_SecretKey (o : Option) (v : string) : Option :=
  {| URL := URL o; ExternalURL := ExternalURL o; Region := Region o;
     AccessKey := AccessKey o; SecretKey := v; Token := Token o |}.

(** [strings.Split(s, sep)] for a separator of one byte. *)
Fixpoint splitOn (sep : ascii) (s : string) : list string :=
  match s with
  | EmptyString => [EmptyString]
  | String c r =>
      if Ascii.eqb c sep then EmptyString :: splitOn sep r
      else match splitOn sep r with
           | h :: t => String c h :: t
           | [] => [String c EmptyString]
           end
  end.

(** [parts[1]]; the index is out of range when the entry has no [=]. *)
Definition second (parts : list string) : outcome string :=
  match parts with
  | _ :: p1 :: _ => Ret p1
  | [_] => Panic "index out of range [1] with length 1"
  | [] => Panic "index out of range [1] with length 0"
  end.

(** The loop [for _, e := range entries] of [ParseOption]. *)
Fixpoint parseEntries (entries : list string) (o : Option) : outcome Option :=
  match entries with
  | [] => Ret o
  | e :: rest =>
      let parts := splitOn "="%char e in
      match parts with
      | [] => Panic "index out of range [0] with length 0"
      | p0 :: _ =>
          if p0 =? "url" then
            match second parts with
            | Ret v => parseEntries rest (set_URL o v)
            | Panic msg => Panic msg
            end
          else if p0 =? "accesskey" then
            match second parts with
            | Ret v => parseEntries rest (set_AccessKey o v)
            | Panic msg => Panic msg
            end
          else if p0 =? "secretkey" then
            match second parts with
            | Ret v => parseEntries rest (set_SecretKey o v)
            | Panic msg => Panic msg
            end
          else parseEntries rest o
      end
  end.

(** [ParseOption]. *)
Definition ParseOption (args : string) : outcome Option :=
  parseEntries (splitOn ","%char args) zeroOption.

(** The byte [c] does not occur in [s]. *)
Fixpoint free (c : ascii) (s : string) : bool :=
  match s with
  | EmptyString => true
  | String a r => negb (Ascii.eqb a c) && free c r
  end.

(** An entry that names an option and has no [=]. *)
Definition bareKey (e : string) : bool :=
  (e =? "url") || (e =? "accesskey") || (e =? "secretkey").

End Options.

(** ** The file node [s3File] *)
Module S3File.
Import GoInt Node.

(** What the node reads of its [*zip.File]: the mode, the modification time
    in Unix seconds, the uncompressed size, and what opening and reading
    the entry gives. *)
Inductive Unpacked : Type :=
| OpenFails                          (* zf.file.Open() returns an error *)
| ReadFails                          (* ioutil.ReadAll returns an error *)
| Content (content : list Byte.byte).

Record ZipFile : Type := {
  zip_Mode : Z;                      (* fs.FileMode, 32 bits *)
  zip_ModTimeUnix : Z;               (* ModTime().Unix(), int64 *)
  UncompressedSize64 : Z;            (* uint64 *)
  unpack : Unpacked
}.

(** [data] is [nil] until the first successful [Open]. *)
Record s3File : Type := { file : ZipFile; data : option (list Byte.byte) }.

Definition uint32 (z : Z) : Z := z mod 2 ^ 32.
Definition uint64 (z : Z) : Z := z mod 2 ^ 64.

Definition EIO : Z := 5.                 (* syscall.EIO *)
Definition FOPEN_KEEP_CACHE : Z := 2.    (* fuse.FOPEN_KEEP_CACHE = 1 << 1 *)

(** [len(zf.data)]. *)
Definition len (zf : s3File) : Z :=
  match data zf with
  | Some d => Z.of_nat (List.length d)
  | None => 0
  end.

(** [Open]: the result is the open flags and the errno; no file handle is
    returned. *)
Definition Open (zf : s3File) : s3File * (Z * Z) :=
  match data zf with
  | None =>
      match unpack (file zf) with
      | OpenFails => (zf, (0, EIO))
      | ReadFails => (zf, (0, EIO))
      | Content content =>
          ({| file := file zf; data := Some content |}, (FOPEN_KEEP_CACHE, 0))
      end
  | Some _ => (zf, (FOPEN_KEEP_CACHE, 0))
  end.

(** [fuse.Attr], the fields [Getattr] sets. *)
Record Attr : Type := {
  Mode : Z; Nlink : Z; Mtime : Z; Atime : Z; Ctime : Z;
  Size : Z; Blksize : Z; Blocks : Z
}.

(** [Getattr]; [bs = 512], the block count is computed in [uint64]. *)
Definition Getattr (zf : s3File) : Attr * Z :=
  let bs := 512 in
  let mtime := uint64 (zip_ModTimeUnix (file zf)) in
  let size := UncompressedSize64 (file zf) in
  ({| Mode := Z.land (uint32 (zip_Mode (file zf))) 4095;   (* 07777 *)
      Nlink := 1; Mtime := mtime; Atime := mtime; Ctime := mtime;
      Size := size; Blksize := bs;
      Blocks := uint64 (uint64 (uint64 (size + bs) - 1) / bs) |}, 0).

(** The slice expression [s[low:high]]: it panics unless
    [0 <= low <= high <= cap(s)].  [Read] passes no [high] above [len(s)],
    so the capacity is taken to be the length. *)
Definition slice (s : list Byte.byte) (low high : Z) : outcome (list Byte.byte) :=
  if (0 <=? low) && (low <=? high) && (high <=? Z.of_nat (List.length s))
  then Ret (firstn (Z.to_nat (high - low)) (skipn (Z.to_nat low) s))
  else Panic "slice bounds out of range".

(** [Read]: [lenDest] is [len(dest)]; the result is the data handed to
    [fuse.ReadResultData]. *)
Definition Read (zf : s3File) (lenDest off : Z) : outcome (list Byte.byte) :=
  let end_ := int (int off + lenDest) in
  let end_ := if end_ >? len zf then len zf else end_ in
  slice (match data zf with Some d => d | None => [] end) off end_.

End S3File.

(** ** The bucket policy document [BucketPolicy] *)
Module Policy.
Import Node.
Open Scope string_scope.

Definition rwDirActionSet : list string :=
  ["s3:GetBucketLocation"; "s3:ListBucket"; "s3:DeleteObject";
   "s3:ListBucketMultipartUploads"].

Definition roDirActionSet : list string :=
  ["s3:GetBucketLocation"; "s3:ListBucket"; "s3:ListBucketMultipartUploads"].

Definition rwObjActionSet : list string :=
  ["s3:AbortMultipartUpload"; "s3:GetObject"; "s3:DeleteObject";
   "s3:ListMultipartUploadParts"; "s3:PutObject"].

Definition roObjActionSet : list string :=
  ["s3:AbortMultipartUpload"; "s3:GetObject"; "s3:ListMultipartUploadParts"].

Record DirPolicy : Type := {
  dp_name : string;
  dp_owner : string;
  dp_shares : list string
}.

(** [dirs] is a Go map: [None] is the nil map, which can be read but not
    written.  [shares] is a slice that no other value aliases: the methods
    below are the only code that holds it. *)
Record BucketPolicy : Type := {
  bucket : string;
  dirs : option (list (string * DirPolicy));
  owner : string;
  shares : list string
}.

Definition set_shares (p : BucketPolicy) (s : list string) : BucketPolicy :=
  {| bucket := bucket p; dirs := dirs p; owner := owner p; shares := s |}.

Definition set_dirs (p : BucketPolicy) (d : option (list (string * DirPolicy)))
  : BucketPolicy :=
  {| bucket := bucket p; dirs := d; owner := owner p; shares := shares p |}.

(** [NewBucketPolicy]: [dirs] and [shares] keep their zero values. *)
Definition NewBucketPolicy (bucket user : string) : BucketPolicy :=
  {| bucket := bucket; dirs := None; owner := user; shares := [] |}.

Fixpoint deleteKey (k : string) (l : list (string * DirPolicy))
  : list (string * DirPolicy) :=
  match l with
  | [] => []
  | (k', v) :: r => if k' =? k then deleteKey k r else (k', v) :: deleteKey k r
  end.

(** [AddOwnDir]: [p.dirs[dir] = ...] panics on the nil map. *)
Definition AddOwnDir (p : BucketPolicy) (dir user : string) : outcome BucketPolicy :=
  match dirs p with
  | None => Panic "assignment to entry in nil map"
  | Some m =>
      Ret (set_dirs p (Some ((dir, {| dp_name := dir; dp_owner := user;
                                       dp_shares := [] |}) :: deleteKey dir m)))
  end.

(** [RemoveOwnDir]: [delete] on the nil map does nothing. *)
Definition RemoveOwnDir (p : BucketPolicy) (dir user : string) : BucketPolicy :=
  match dirs p with
  | None => p
  | Some m => set_dirs p (Some (deleteKey dir m))
  end.

(** [AddShare]. *)
Definition AddShare (p : BucketPolicy) (user : string) : BucketPolicy :=
  set_shares p (shares p ++ [user]).

(** The loop of [RemoveShare] from position [k] on, [n] elements to go:
    [arr] is the backing array of [p.shares], which the loop reads at [k]
    and writes at [index]. *)
Fixpoint removeLoop (n k : nat) (user : string) (arr : list string) (index : nat)
  : option (list string * nat) :=
  match n with
  | O => Some (arr, index)
  | S n' =>
      match nth_error arr k with
      | None => None                         (* index out of range *)
      | Some i =>
          if negb (i =? user) then
            match ClientMore.store arr index i with
            | Some arr' => removeLoop n' (S k) user arr' (S index)
            | None => None
            end
          else removeLoop n' (S k) user arr index
      end
  end.

(** [RemoveShare]: [p.shares = p.shares[:index]]. *)
Definition RemoveShare (p : BucketPolicy) (user : string) : outcome BucketPolicy :=
  match removeLoop (List.length (shares p)) 0 user (shares p) 0 with
  | Some (arr, index) => Ret (set_shares p (firstn index arr))
  | None => Panic "index out of range"
  end.

(** One statement of the policy document. *)
Record Statement : Type := {
  Effect : string;
  Principal : list string;          (* the value under "AWS" *)
  Action : list string;
  Resource : list string
}.

Definition userArn (u : string) : string := "arn:aws:iam:::user/" ++ u.

(** [BucketPolicy()]. *)
Definition bucketStatements (p : BucketPolicy) : list Statement :=
  let ownPrinc := [userArn (owner p)] in
  let sharePrinc := map userArn (shares p) in
  let bucketRes := ["arn:aws:s3:::" ++ bucket p] in
  let objectRes := ["arn:aws:s3:::" ++ bucket p ++ "/*"] in
  let bucketOwnerStatement :=
    {| Effect := "Allow"; Principal := ownPrinc; Action := rwDirActionSet;
       Resource := bucketRes |} in
  let objectOwnerStatement :=
    {| Effect := "Allow"; Principal := ownPrinc; Action := rwObjActionSet;
       Resource := objectRes |} in
  if Nat.ltb 0 (List.length sharePrinc) then
    let bucketShareStatement :=
      {| Effect := "Allow"; Principal := sharePrinc; Action := roDirActionSet;
         Resource := bucketRes |} in
    let objectShareStatement :=
      {| Effect := "Allow"; Principal := sharePrinc; Action := roObjActionSet;
         Resource := objectRes |} in
    [bucketOwnerStatement; objectOwnerStatement; bucketShareStatement;
     objectShareStatement]
  else [bucketOwnerStatement; objectOwnerStatement].

(** [DirsPolicy()]; a Go map is ranged over in no fixed order, here in the
    order of the list. *)
Definition dirsStatements (p : BucketPolicy) : list Statement :=
  let sharePrinc := map userArn (shares p) in
  flat_map
    (fun '(dir, v) =>
       let ownPrinc := [userArn (dp_owner v)] in
       let dirRes := ["arn:aws:s3:::" ++ bucket p ++ "/" ++ dir] in
       let objRes := ["arn:aws:s3:::" ++ bucket p ++ "/" ++ dir ++ "/*"] in
       let dirOwnerStatement :=
         {| Effect := "Allow"; Principal := ownPrinc; Action := rwDirActionSet;
            Resource := dirRes |} in
       let objOwnerStatement :=
         {| Effect := "Allow"; Principal := ownPrinc; Action := rwObjActionSet;
            Resource := objRes |} in
       if Nat.ltb 0 (List.length sharePrinc) then
         [dirOwnerStatement; objOwnerStatement;
          {| Effect := "Allow"; Principal := sharePrinc; Action := roDirActionSet;
             Resource := dirRes |};
          {| Effect := "Allow"; Principal := sharePrinc; Action := roObjActionSet;
             Resource := objRes |}]
       else [dirOwnerStatement; objOwnerStatement])
    (match dirs p with Some m => m | None => [] end).

(** The value under ["Statement"] in [ToString], before [json.Marshal]. *)
Definition statements (p : BucketPolicy) : list Statement :=
  bucketStatements p ++ dirsStatements p.

(** The policy [GenerateBucketPolicy] builds before it renders it. *)
Definition generated (bucket owner : string) (to_users : list string) : BucketPolicy :=
  fold_left AddShare to_users (NewBucketPolicy bucket owner).

(** The test of the loop of [RemoveShare]: [i != user]. *)
Definition kept (user : string) : string -> bool := fun i => negb (i =? user).

(** The calls that do not write [dirs]. *)
Inductive edit : Type :=
| DoAddShare (user : string)
| DoRemoveShare (user : string)
| DoRemoveOwnDir (dir user : string).

Definition apply (p : outcome BucketPolicy) (e : edit) : outcome BucketPolicy :=
  match p with
  | Panic msg => Panic msg
  | Ret p =>
      match e with
      | DoAddShare u => Ret (AddShare p u)
      | DoRemoveShare u => RemoveShare p u
      | DoRemoveOwnDir d u => Ret (RemoveOwnDir p d u)
      end
  end.

End Policy.

(** ** More of the accounted reader: buffering, [UpdateReader], [shortenName] *)
Module NodeMore.
Import GoInt Node.

(** Modelled from the spec: the [asyncreader] package of the repository is
    not among the sources.  What the handle uses of it is taken as given,
    with nothing assumed of its behaviour: the constant [BufferSize], [New],
    the test whether a reader is an [*asyncreader.AsyncReader], and
    [Abandon]. *)
Record AsyncIO : Type := {
  aio :> IO;
  async_BufferSize : Z;
  async_New : Context -> ref aio -> Z -> W aio -> (ref aio + error) * W aio;
  isAsync : ref aio -> bool;
  async_Abandon : ref aio -> W aio -> W aio
}.

Section WithAsyncIO.
Context (A : AsyncIO).

Definition set_withBuf (sno : S3Node A) (b : bool) : S3Node A :=
  Build_S3Node A (in_ sno) (ctx sno) (origIn A sno) (close sno) (size A sno)
    (name A sno) (closed sno) (exit sno) b.

(** [sno.in = rc; sno.close = rc]. *)
Definition set_in_close (sno : S3Node A) (rc : ref A) : S3Node A :=
  Build_S3Node A rc (ctx sno) (origIn A sno) (Some rc) (size A sno)
    (name A sno) (closed sno) (exit sno) (withBuf A sno).

(** [WithBuffer]; [ciBufferSize] is [sno.ci.BufferSize].  Go's integer
    division truncates. *)
Definition WithBuffer (ciBufferSize : Z) (sno : S3Node A) (w : W A)
  : S3Node A * W A :=
  if withBuf A sno then (sno, w)
  else
    let sno := set_withBuf sno true in
    let buffers :=
      if (size A sno >=? int64 ciBufferSize) || (size A sno =? -1)
      then int (Z.quot (int64 ciBufferSize) (async_BufferSize A))
      else int (Z.quot (size A sno) (async_BufferSize A)) in
    if buffers >? 0 then
      match async_New A (ctx sno) (origIn A sno) buffers w with
      | (inr err, w') => (sno, w')           (* the error is logged *)
      | (inl rc, w') => (set_in_close sno rc, w')
      end
    else (sno, w).

(** [Abandon]. *)
Definition Abandon (sno : S3Node A) (w : W A) : W A :=
  if isAsync A (in_ sno) then async_Abandon A (in_ sno) w else w.

(** [UpdateReader]. *)
Definition UpdateReader (ciBufferSize : Z) (sno : S3Node A) (ctx' : Context)
  (in' : ref A) (w : W A) : S3Node A * W A :=
  let withBuf0 := withBuf A sno in
  let w := if withBuf0 then Abandon sno w else w in
  let sno := if withBuf0 then set_withBuf sno false else sno in
  let sno := Build_S3Node A in' ctx' in' (Some in') (size A sno) (name A sno)
               false (exit sno) (withBuf A sno) in
  if withBuf0 then WithBuffer ciBufferSize sno w else (sno, w).

End WithAsyncIO.

(** The stream of [nopIO] without any buffering: [New] fails. *)
Definition nopAsync : AsyncIO :=
  {| aio := nopIO; async_BufferSize := 1048576;
     async_New := fun _ _ _ w => (inr (StreamError 1), w);
     isAsync := fun _ => false;
     async_Abandon := fun _ w => w |}.

(** *** [shortenName]

    The name is given by its runes: [utf8.RuneCountInString(in)] is the
    length of [[]rune(in)]. *)
Definition ellipsis : Z := 8230.   (* U+2026 *)

(** [copy] inside one array, as the second [append] does it: [n] elements
    from position [src] on are moved to position [dst] on. *)
Definition moveWithin (arr : list Z) (dst src n : nat) : list Z :=
  firstn dst arr ++ firstn n (skipn src arr) ++ skipn (dst + n) arr.

(** [shortenName].  Both appends stay within the capacity of [name], so
    they write into its array: the first puts the ellipsis at index
    [prefixLength], the second moves the suffix behind it. *)
Definition shortenName (in_ : list Z) (size : Z) : option (list Z) :=
  if size <=? 0 then Some in_
  else if Z.of_nat (List.length in_) <=? size then Some in_
  else
    let name := in_ in
    let size := int (size - 1) in
    let suffixLength := int (Z.quot size 2) in
    let prefixLength := int (size - suffixLength) in
    let suffixStart := int (Z.of_nat (List.length name) - suffixLength) in
    match ClientMore.store name (Z.to_nat prefixLength) ellipsis with
    | None => None                           (* not reached: the index is below len(name) *)
    | Some name =>
        let name := moveWithin name (Z.to_nat prefixLength + 1)
                      (Z.to_nat suffixStart) (Z.to_nat suffixLength) in
        Some (firstn (Z.to_nat prefixLength + 1 + Z.to_nat suffixLength) name)
    end.

End NodeMore.

(** ** [fs.GetModifyWindow] *)
Module Fs.

(** [time.Duration] in nanoseconds. *)
Definition Hour : Z := 3600 * 1000000000.
Definition ModTimeNotSupported : Z := 100 * 365 * 24 * Hour.

(** [GetModifyWindow]: [window] starts as [GetConfig(ctx).ModifyWindow];
    an entry of [fss] is [None] for a nil [Info] and the value of
    [f.Precision()] otherwise. *)
Fixpoint modifyWindowLoop (window : Z) (fss : list (option Z)) : Z :=
  match fss with
  | [] => window
  | None :: rest => modifyWindowLoop window rest
  | Some precision :: rest =>
      if precision =? ModTimeNotSupported then ModTimeNotSupported
      else if precision >? window then modifyWindowLoop precision rest
      else modifyWindowLoop window rest
  end.

Definition GetModifyWindow (configured : Z) (fss : list (option Z)) : Z :=
  modifyWindowLoop configured fss.

End Fs.

(** ** The questions of the configuration dialogue *)
Module ConfigUI.
Import GoInt Client.
Open Scope string_scope.

(** The value of a non-empty string of decimal digits. *)
Fixpoint digits (acc : Z) (s : string) : option Z :=
  match s with
  | EmptyString => Some acc
  | String c r =>
      let n := Z.of_nat (nat_of_ascii c) in
      if (48 <=? n)%Z && (n <=? 57)%Z then digits (10 * acc + (n - 48))%Z r
      else None
  end.

Definition number (s : string) : option Z :=
  match s with
  | EmptyString => None
  | _ => digits 0 s
  end.

(** [strconv.Atoi]: an optional sign and decimal digits, within [int];
    [None] stands for a non-nil error. *)
Definition Atoi (s : string) : option Z :=
  let v :=
    match s with
    | String "+"%char r => number r
    | String "-"%char r => option_map Z.opp (number r)
    | _ => number s
    end in
  match v with
  | Some n => if (minInt64 <=? n)%Z && (n <=? maxInt64)%Z then Some n else None
  | None => None
  end.

(** The questions read their answers with [ReadLine], a variable holding a
    function; [input] is what its successive calls return.  When it has
    nothing more to return, [ReadLine] ends the process with [log.Fatalf].
    What the questions print is left out. *)
Definition Asked (A : Type) : Type := outcome A * list string.

(** [ChooseNumber]. *)
Fixpoint ChooseNumber (min max : Z) (input : list string) : Asked Z :=
  match input with
  | [] => (Exits, [])
  | result :: rest =>
      match Atoi result with
      | None => ChooseNumber min max rest                  (* Bad number *)
      | Some i =>
          if (i <? min)%Z || (i >? max)%Z then ChooseNumber min max rest
          else (Returns i, rest)
      end
  end.

(** [Enter]. *)
Fixpoint Enter (defaultValue : string) (required : bool) (input : list string)
  : Asked string :=
  match input with
  | [] => (Exits, [])
  | result :: rest =>
      if negb required || negb (result =? "") then (Returns result, rest)
      else if negb (defaultValue =? "") then (Returns defaultValue, rest)
      else Enter defaultValue required rest
  end.

(** [Choose]; [choices[i-1]] is in range where it is evaluated. *)
Fixpoint Choose (choices : list string) (defaultValue : string)
  (required newOk : bool) (input : list string) : Asked string :=
  match input with
  | [] => (Exits, [])
  | result :: rest =>
      match Atoi result with
      | None =>
          if existsb (String.eqb result) choices then (Returns result, rest)
          else if result =? "" then
            if negb required then (Returns result, rest)
            else if negb (defaultValue =? "") then (Returns defaultValue, rest)
            else Choose choices defaultValue required newOk rest
          else if newOk then (Returns result, rest)
          else Choose choices defaultValue required newOk rest
      | Some i =>
          if (1 <=? i)%Z && (i <=? Z.of_nat (List.length choices))%Z
          then (Returns (nth (Z.to_nat (i - 1)) choices ""), rest)
          else Choose choices defaultValue required newOk rest
      end
  end.

(** A line [ChooseNumber] turns down. *)
Definition badNumber (min max : Z) (line : string) : bool :=
  match Atoi line with
  | None => true
  | Some i => (i <? min)%Z || (i >? max)%Z
  end.

End ConfigUI.

(** * Properties *)

(** ** Go integers *)
Module GoIntFacts.
Import GoInt.

Lemma int64_range (z : Z) : in_int64 (int64 z).
Proof.
  unfold in_int64, int64.
  pose proof (Z.mod_pos_bound (z + 2 ^ 63) (2 ^ 64) ltac:(lia)). lia.
Qed.

Lemma int64_id (z : Z) : in_int64 z -> int64 z = z.
Proof.
  unfold in_int64, int64. intros H.
  rewrite Z.mod_small by lia. lia.
Qed.

Lemma int_id (z : Z) : in_int64 z -> int z = z.
Proof. exact (int64_id z). Qed.

End GoIntFacts.

(** ** The accounted reader *)
Module NodeFacts.
Import GoInt GoIntFacts Node.

(** The counter handed from the check before the read to the check after
    it is zero on every path. *)
Lemma checkReadBefore_zero {io} (sno : S3Node io) :
  fst (checkReadBefore sno) = 0.
Proof. unfold checkReadBefore. destruct (ctx_Err (ctx sno)); reflexivity. Qed.

Lemma checkReadBefore_live {io} (sno : S3Node io) :
  ctx_Err (ctx sno) = None -> checkReadBefore sno = (0, None).
Proof. unfold checkReadBefore. intros ->. reflexivity. Qed.

(** With a zero counter every count that is not negative is cut to zero. *)
Lemma checkReadAfter_clamps (n : Z) (err : option error) :
  in_int64 n -> 0 <= n -> checkReadAfter 0 n err = (0, err).
Proof.
  intros Hr Hn. unfold checkReadAfter, int.
  rewrite (int64_id n Hr).
  assert (Hm : int64 (0 - n) = - n).
  { apply int64_id. unfold in_int64 in *. lia. }
  rewrite Hm, (int64_id (- n)) by (unfold in_int64 in *; lia).
  replace (n + - n) with 0 by lia.
  change (int64 0) with 0.
  destruct (- n <? 0) eqn:E; [reflexivity|].
  apply Z.ltb_ge in E. f_equal. lia.
Qed.

Lemma read_live {io} (sno : S3Node io) rd lenp w n err w' :
  ctx_Err (ctx sno) = None -> in_int64 n -> 0 <= n ->
  io_Read io rd lenp w = ((n, err), w') ->
  read sno rd lenp w = ((0, err), w').
Proof.
  intros Hc Hr Hn Hrd. unfold read.
  rewrite (checkReadBefore_live sno Hc), Hrd.
  now rewrite (checkReadAfter_clamps n err Hr Hn).
Qed.

(** The closed flag is read by [Close] alone. *)
Lemma read_set_closed {io} (sno : S3Node io) b rd lenp w :
  read (set_closed sno b) rd lenp w = read sno rd lenp w.
Proof. reflexivity. Qed.

Lemma Close_closed {io} (sno : S3Node io) w :
  closed sno = true -> Close sno w = ((None, sno), w).
Proof. unfold Close. intros ->. reflexivity. Qed.

Lemma Close_result {io} (sno : S3Node io) w e sno1 w1 :
  Close sno w = ((e, sno1), w1) ->
  closed sno1 = true /\ (sno1 = sno \/ sno1 = set_closed sno true).
Proof.
  unfold Close. destruct (closed sno) eqn:E.
  - intros H. inversion H; subst. auto.
  - simpl. destruct (close sno).
    + destruct (io_Close io r w). intros H. inversion H; subst. auto.
    + intros H. inversion H; subst. auto.
Qed.

(** C2. On a handle whose context is not cancelled, a read of the stream
    that yields [n > 0] bytes is reported as a read of 0 bytes: the counter
    of [checkReadBefore] is zero and [checkReadAfter] cuts the count down to
    it.  The writer of the [WriteTo] path and the check pair of
    [AccountRead] behave alike. *)
Theorem Read_reports_zero {io} (sno : S3Node io) (lenp n : Z)
  (err : option error) (w w' : W io) :
  ctx_Err (ctx sno) = None -> in_int64 n -> 0 < n ->
  (io_Read io (in_ sno) lenp w = ((n, err), w') ->
   Read sno lenp w = ((0, err), w')) /\
  (forall wr, io_Write io wr lenp w = ((n, err), w') ->
   accountWriteTo_Write sno wr lenp w = ((0, err), w')) /\
  checkReadBefore sno = (0, None) /\
  checkReadAfter 0 n err = (0, err) /\
  AccountRead sno n = None.
Proof.
  intros Hc Hr Hn.
  assert (Hn0 : 0 <= n) by lia.
  repeat split.
  - intros Hrd. unfold Read. now apply (read_live sno (in_ sno) lenp w n).
  - intros wr Hwr. unfold accountWriteTo_Write.
    rewrite (checkReadBefore_live sno Hc), Hwr.
    now rewrite (checkReadAfter_clamps n err Hr Hn0).
  - apply checkReadBefore_live; assumption.
  - now apply checkReadAfter_clamps.
  - unfold AccountRead. rewrite (checkReadBefore_live sno Hc).
    now rewrite (checkReadAfter_clamps n None Hr Hn0).
Qed.

Lemma Read_reports_zero_witness :
  Read nopNode 10 0%nat = ((0, None), 0%nat).
Proof.
  apply (Read_reports_zero nopNode 10 5 None 0%nat 0%nat);
    [reflexivity | unfold in_int64; lia | lia | reflexivity].
Defined.

(** C9, as the claim has it, fails: after a completed [Close] a [Read] of a
    stream that still delivers returns without any error. *)
Lemma Read_after_Close_no_error :
  Close nopNode 0%nat = ((None, set_closed nopNode true), 1%nat) /\
  closed (set_closed nopNode true) = true /\
  Read (set_closed nopNode true) 10 1%nat = ((0, None), 1%nat).
Proof. repeat split. Qed.

(** C9, amended. [Close] is idempotent: once a close has completed, a
    second one returns nil and leaves handle and stream as they are.  A
    [Read] after the close is not refused by the handle: it is the read of
    the open handle, whose error is the context's when that is cancelled
    and the stream's own otherwise. *)
Theorem Close_idempotent_Read_unguarded {io} (sno sno1 : S3Node io)
  (e : option error) (w w1 : W io) :
  Close sno w = ((e, sno1), w1) ->
  Close sno1 w1 = ((None, sno1), w1) /\
  (forall lenp w2, Read sno1 lenp w2 = Read sno lenp w2) /\
  (forall lenp w2,
     snd (fst (Read sno1 lenp w2)) =
     match ctx_Err (ctx sno) with
     | Some ce => Some ce
     | None => snd (fst (io_Read io (in_ sno) lenp w2))
     end).
Proof.
  intros H. destruct (Close_result sno w e sno1 w1 H) as [Hc Hs].
  assert (HR : forall lenp w2, Read sno1 lenp w2 = Read sno lenp w2).
  { destruct Hs as [-> | ->]; reflexivity. }
  repeat split.
  - now apply Close_closed.
  - exact HR.
  - intros lenp w2. rewrite HR. unfold Read, read, checkReadBefore.
    destruct (ctx_Err (ctx sno)); [reflexivity|].
    destruct (io_Read io (in_ sno) lenp w2) as [[n err] w3]. reflexivity.
Qed.

Lemma Close_idempotent_Read_unguarded_witness :
  Close (set_closed nopNode true) 1%nat = ((None, set_closed nopNode true), 1%nat).
Proof.
  apply (Close_idempotent_Read_unguarded nopNode (set_closed nopNode true)
           None 0%nat 1%nat).
  reflexivity.
Defined.

(** C10. [Done] is not idempotent: on a handle whose exit channel is open
    the first [Done] closes the channel, and from then on every [Done] on
    the handle panics, the channel being closed already; a [Close] in
    between does not change that, and [Close] itself can be repeated. *)
Theorem Done_twice_panics {io} (sno : S3Node io) :
  exit sno = ChanOpen ->
  Done sno = Ret (set_exit sno ChanClosed) /\
  Done (set_exit sno ChanClosed) = Panic "close of closed channel" /\
  (forall w, Done (snd (fst (Close (set_exit sno ChanClosed) w)))
             = Panic "close of closed channel") /\
  (forall w, let r := Close sno w in
             Close (snd (fst r)) (snd r) = ((None, snd (fst r)), snd r)).
Proof.
  intros He. repeat split.
  - unfold Done. rewrite He. reflexivity.
  - intros w. unfold Close. simpl.
    destruct (closed sno); [reflexivity|].
    destruct (close sno); [|reflexivity].
    destruct (io_Close io r w). reflexivity.
  - intros w r. subst r.
    destruct (Close sno w) as [[e sno1] w1] eqn:E. simpl.
    apply Close_closed. now destruct (Close_result sno w e sno1 w1 E).
Qed.

Lemma Done_twice_panics_witness :
  Done nopNode = Ret (set_exit nopNode ChanClosed) /\
  Done (set_exit nopNode ChanClosed) = Panic "close of closed channel".
Proof.
  destruct (Done_twice_panics nopNode eq_refl) as (H1 & H2 & _).
  split; assumption.
Defined.

End NodeFacts.

(** ** The object-store client *)
Module ClientFacts.
Import Filepath Client.
Open Scope string_scope.

Section WithBackend.
Context (B : Backend).

Lemma sent_sent (w : World B) cs cs' s s' :
  sent (sent w cs s) cs' s' = sent w (cs ++ cs') s'.
Proof. unfold sent. simpl. now rewrite app_assoc. Qed.

(** A name of at most two bytes is turned down before any probe. *)
Lemma validateBucket_short (name : string) (w : World B) :
  (String.length name <= 2)%nat ->
  validateBucket B name w = (Returns (-1)%Z, w).
Proof.
  intros H. unfold validateBucket.
  destruct (Z.leb_spec (Z.of_nat (String.length name)) 2); [reflexivity | lia].
Qed.

(** A longer name is probed once; the answer decides between 1 and 0. *)
Lemma validateBucket_probe (name : string) (w : World B) e s' :
  (2 < String.length name)%nat ->
  be_HeadBucket B name (st w) = (e, s') ->
  validateBucket B name w =
  (Returns (match e with None => 1 | Some _ => 0 end)%Z,
   sent w [HeadBucketCall name] s').
Proof.
  intros H Hp. unfold validateBucket.
  destruct (Z.leb_spec (Z.of_nat (String.length name)) 2); [lia|].
  unfold bind, HeadBucket, bind, request. rewrite Hp.
  destruct e; reflexivity.
Qed.


Lemma HeadObject_ok (user bucket path : string) (w : World B) s1 len e s2 :
  (2 < String.length bucket)%nat ->
  be_HeadBucket B bucket (st w) = (None, s1) ->
  be_HeadObject B bucket (Clean ("./" ++ path)) s1 = ((len, e), s2) ->
  HeadObject B user bucket path w =
  (Returns (match e with None => (len, None) | Some e' => (0%Z, Some (ErrSDK e')) end),
   sent w [HeadBucketCall bucket; HeadObjectCall bucket (Clean ("./" ++ path))] s2).
Proof.
  set (cpath := Clean ("./" ++ path)).
  intros H Hp Hh. unfold HeadObject, bind at 1. fold cpath.
  rewrite (validateBucket_probe bucket w None s1 H Hp). simpl.
  unfold bind, request. simpl. rewrite Hh. unfold ret, sent. simpl.
  rewrite <- app_assoc. destruct e; reflexivity.
Qed.

(** The page loop on a page whose first delete fails: the caller receives
    the failure from [cos] and returns [err], the error of the listing,
    which is nil on this path. *)
Lemma deleteItems_first_fails user name err key rest wg cos (w w' : World B) e :
  isClosed cos = false -> pending cos = [] ->
  DeleteObject B user name key w = (Returns (Some e), w') ->
  deleteItems B user name err (key :: rest) wg cos w = (Returns (Some err, S wg), w').
Proof.
  intros Hc Hp Hd. simpl. unfold bind at 1. rewrite Hd.
  unfold bind, stop, send. rewrite Hc, Hp. reflexivity.
Qed.


Lemma DeleteBucket_first_delete_fails fuel user name (w w3 : World B) s1 out s2 key rest e :
  (2 < String.length name)%nat ->
  be_HeadBucket B name (st w) = (None, s1) ->
  be_ListObjectsV2 B name None s1 = ((out, None), s2) ->
  Contents out = key :: rest ->
  DeleteObject B user name key
    (sent w [HeadBucketCall name; ListObjectsV2Call name None] s2) = (Returns (Some e), w3) ->
  DeleteBucket B (S fuel) user name w = (Returns None, w3).
Proof.
  intros H Hp Hl Hc Hd. unfold DeleteBucket, bind at 1.
  rewrite (validateBucket_probe name w None s1 H Hp). simpl.
  unfold bind at 1. unfold bind at 1. unfold request at 1. simpl. rewrite Hl.
  cbv zeta. cbn [liftErr option_map]. rewrite Hc. unfold bind at 1.
  rewrite (deleteItems_first_fails user name None key rest 0 makeChan _ w3 e);
    [reflexivity | reflexivity | reflexivity |].
  unfold sent in Hd. simpl in Hd. rewrite <- app_assoc. exact Hd.
Qed.


(** C3. For a bucket name of at most two bytes [CreateBucket] returns
    [ErrInvalidBucketName] and leaves the world as it was: the backend state
    is untouched and no request, neither a probe nor a create, is sent. *)
Theorem CreateBucket_short_name (user name : string) (w : World B) :
  (String.length name <= 2)%nat ->
  CreateBucket B user name w = (Returns (None, Some ErrInvalidBucketName), w) /\
  calls (snd (CreateBucket B user name w)) = calls w.
Proof.
  intros H.
  assert (E : CreateBucket B user name w = (Returns (None, Some ErrInvalidBucketName), w)).
  { unfold CreateBucket, bind. now rewrite (validateBucket_short name w H). }
  split; [exact E | now rewrite E].
Qed.


(** When the client's [HeadObject] hands back a length and no error, a
    download that ends in [NoSuchKey] makes [GetObject] return an object
    without content and no error. *)
Lemma GetObject_download_NoSuchKey (user bucket path : string) (w w2 : World B)
  s1 s3 (contentLength numBytes : Z) :
  (2 < String.length bucket)%nat ->
  be_HeadBucket B bucket (st w) = (None, s1) ->
  HeadObject B user bucket path (sent w [HeadBucketCall bucket] s1)
  = (Returns (contentLength, None), w2) ->
  (0 <= contentLength)%Z ->
  be_Download B bucket (Clean ("./" ++ path)) (st w2) = ((numBytes, Some NoSuchKey), s3) ->
  GetObject B user bucket path w =
  (Returns (Some {| obj_Bucket := bucket;
                    obj_Name := snd (Split (Clean ("./" ++ path)));
                    obj_Prefix := fst (Split (Clean ("./" ++ path)));
                    obj_Size := 0; obj_Data := 0 |}, None),
   sent w2 [DownloadCall bucket (Clean ("./" ++ path)) contentLength] s3).
Proof.
  intros H Hp1 HO Hlen Hd. unfold GetObject, bind at 1.
  set (cpath := Clean ("./" ++ path)) in *.
  rewrite (validateBucket_probe bucket w None s1 H Hp1). simpl.
  destruct (Split cpath) as [dir file_name].
  unfold bind at 1. rewrite HO.
  destruct (Z.ltb_spec contentLength 0); [lia|].
  unfold bind, request. simpl. rewrite Hd. reflexivity.
Qed.

Lemma GetObject_head_error (user bucket path : string) (w : World B)
  s1 s2 s3 (len : Z) (e : sdkError) :
  (2 < String.length bucket)%nat ->
  be_HeadBucket B bucket (st w) = (None, s1) ->
  be_HeadBucket B bucket s1 = (None, s2) ->
  be_HeadObject B bucket (Clean ("./" ++ path)) s2 = ((len, Some e), s3) ->
  GetObject B user bucket path w =
  (Returns (None, Some (ErrSDK e)),
   sent w [HeadBucketCall bucket; HeadBucketCall bucket;
           HeadObjectCall bucket (Clean ("./" ++ path))] s3).
Proof.
  intros H Hp1 Hp2 Hh. unfold GetObject, bind at 1.
  pose proof (HeadObject_ok user bucket path) as HO.
  set (cpath := Clean ("./" ++ path)) in *.
  rewrite (validateBucket_probe bucket w None s1 H Hp1). simpl.
  destruct (Split cpath) as [dir file_name].
  unfold bind at 1.
  rewrite (HO (sent w [HeadBucketCall bucket] s1) s2 len (Some e) s3 H Hp2 Hh).
  rewrite sent_sent. reflexivity.
Qed.

(** C8, amended. On a bucket that passes the check of [GetObject], a key
    that was never written makes the call fail when the head request that
    comes first reports it missing: the backend's error is handed on as it
    is, nothing is downloaded and no object is returned.  When instead the
    client's [HeadObject] hands back a length and no error and it is the
    download that reports [NoSuchKey], the call returns an object without
    content and no error. *)
Theorem GetObject_missing_key (user bucket path : string) (w : World B) s1 :
  (2 < String.length bucket)%nat ->
  be_HeadBucket B bucket (st w) = (None, s1) ->
  (forall s2 s3 len e,
     be_HeadBucket B bucket s1 = (None, s2) ->
     be_HeadObject B bucket (Clean ("./" ++ path)) s2 = ((len, Some e), s3) ->
     GetObject B user bucket path w =
     (Returns (None, Some (ErrSDK e)),
      sent w [HeadBucketCall bucket; HeadBucketCall bucket;
              HeadObjectCall bucket (Clean ("./" ++ path))] s3)) /\
  (forall w2 s3 contentLength numBytes,
     HeadObject B user bucket path (sent w [HeadBucketCall bucket] s1)
     = (Returns (contentLength, None), w2) ->
     (0 <= contentLength)%Z ->
     be_Download B bucket (Clean ("./" ++ path)) (st w2)
     = ((numBytes, Some NoSuchKey), s3) ->
     GetObject B user bucket path w =
     (Returns (Some {| obj_Bucket := bucket;
                       obj_Name := snd (Split (Clean ("./" ++ path)));
                       obj_Prefix := fst (Split (Clean ("./" ++ path)));
                       obj_Size := 0; obj_Data := 0 |}, None),
      sent w2 [DownloadCall bucket (Clean ("./" ++ path)) contentLength] s3)).
Proof.
  intros H Hp1. split.
  - intros s2 s3 len e Hp2 Hh. now apply (GetObject_head_error _ _ _ _ s1 s2 s3 len).
  - intros w2 s3 contentLength numBytes HO Hlen Hd.
    now apply (GetObject_download_NoSuchKey _ _ _ _ _ s1 s3 _ numBytes).
Qed.

End WithBackend.

Lemma CreateBucket_short_name_witness :
  CreateBucket memBackend "user" "ab" (world0 store1)
  = (Returns (None, Some ErrInvalidBucketName), world0 store1).
Proof.
  apply (CreateBucket_short_name memBackend "user" "ab" (world0 store1)).
  simpl. lia.
Defined.


Lemma GetObject_missing_key_witness :
  fst (GetObject memBackend "user" "my-data" "never-written" (world0 store1))
  = Returns (None, Some (ErrSDK (APIError "NotFound"))).
Proof.
  destruct (GetObject_missing_key memBackend "user" "my-data" "never-written"
              (world0 store1) store1) as [Hhead _];
    [simpl; lia | reflexivity |].
  rewrite (Hhead store1 store1 0%Z (APIError "NotFound"));
    [reflexivity | reflexivity | reflexivity].
Defined.

(** C8, as the claim has it, fails: the bucket exists and the key was never
    written, but the bucket probe inside [HeadObject] times out, so
    [HeadObject] hands back length 0 and no error; the download then reports
    [NoSuchKey], and [GetObject] returns an object and nil. *)
Lemma GetObject_missing_key_succeeds :
  assoc "never-written" [("k1", 3%Z); ("k2", 5%Z)] = None /\
  GetObject (flaky 1) "user" "my-data" "never-written" (flakyWorld 1 store1)
  = (Returns (Some {| obj_Bucket := "my-data"; obj_Name := "never-written";
                      obj_Prefix := ""; obj_Size := 0; obj_Data := 0 |}, None),
     Build_World (flaky 1) (store1, 2%nat)
       [HeadBucketCall "my-data"; HeadBucketCall "my-data";
        DownloadCall "my-data" "never-written" 0]).
Proof. split; reflexivity. Qed.

(** C1. The claim holds of the design and fails on the code: the bucket
    holds [k1] and [k2], and the backend refuses to delete [k1].  The delete
    of [k1] returns the refusal, [k2] is not touched and the bucket is not
    removed, yet [DeleteBucket] returns nil. *)
Theorem DeleteBucket_swallows_delete_error :
  fst (DeleteObject memBackend "user" "my-data" "k1"
         (sent (world0 store1)
            [HeadBucketCall "my-data"; ListObjectsV2Call "my-data" None] store1))
  = Returns (Some (ErrSDK (APIError "AccessDenied"))) /\
  DeleteBucket memBackend 1 "user" "my-data" (world0 store1)
  = (Returns None,
     sent (world0 store1)
       [HeadBucketCall "my-data"; ListObjectsV2Call "my-data" None;
        HeadBucketCall "my-data"; DeleteObjectCall "my-data" "k1"] store1).
Proof.
  split; [reflexivity|].
  apply (DeleteBucket_first_delete_fails memBackend 0 "user" "my-data"
           (world0 store1) _ store1
           {| Contents := ["k1"; "k2"]; IsTruncated := false;
              ContinuationToken := None; NextContinuationToken := None |}
           store1 "k1" ["k2"] (ErrSDK (APIError "AccessDenied")));
    [simpl; lia | reflexivity | reflexivity | reflexivity | reflexivity].
Qed.

End ClientFacts.

(** ** The inode tree builder *)
Module TreeFacts.
Import Filepath Tree.
Open Scope string_scope.
Open Scope list_scope.

(** *** The children of a node as a map *)

Lemma lookup_setEntry_same name ch l : lookup name (setEntry name ch l) = Some ch.
Proof.
  induction l as [|[k v] r IH]; simpl.
  - now rewrite String.eqb_refl.
  - destruct (String.eqb k name) eqn:E; simpl.
    + now rewrite String.eqb_refl.
    + now rewrite E.
Qed.


Lemma lookup_None_names name l : lookup name l = None -> ~ In name (map fst l).
Proof.
  induction l as [|[k v] r IH]; simpl; [tauto|].
  destruct (String.eqb_spec k name) as [->|Hk]; [discriminate|].
  intros H [E|I]; [congruence | now apply IH].
Qed.

Lemma lookup_Some_In name l v : lookup name l = Some v -> In (name, v) l.
Proof.
  induction l as [|[k x] r IH]; simpl; [discriminate|].
  destruct (String.eqb_spec k name) as [->|Hk].
  - intros H. inversion H. now left.
  - intros H. right. now apply IH.
Qed.

Lemma names_setEntry name ch l :
  map fst (setEntry name ch l) =
  match lookup name l with
  | Some _ => map fst l
  | None => map fst l ++ [name]
  end.
Proof.
  induction l as [|[k v] r IH]; simpl; [reflexivity|].
  destruct (String.eqb_spec k name) as [->|Hk]; simpl; [reflexivity|].
  rewrite IH. now destruct (lookup name r).
Qed.

Lemma NoDup_setEntry name ch l :
  NoDup (map fst l) -> NoDup (map fst (setEntry name ch l)).
Proof.
  intros H. rewrite names_setEntry.
  destruct (lookup name l) eqn:E; [assumption|].
  apply NoDup_app; [assumption | repeat constructor; simpl; tauto |].
  intros x Hx [Hx'|[]]. subst x. exact (lookup_None_names name l E Hx).
Qed.

Lemma Forall_setEntry (P : string * Inode -> Prop) name ch l :
  Forall P l -> P (name, ch) -> Forall P (setEntry name ch l).
Proof.
  intros Hl Hc. induction Hl as [|[k v] r Hk Hr IH]; simpl.
  - now constructor.
  - destruct (String.eqb k name); constructor; assumption.
Qed.

(** *** No name twice under one parent *)

Lemma uniqueNames_unfold o a c :
  uniqueNames (MkInode o a c) <->
  NoDup (map fst c) /\ Forall (fun kv => uniqueNames (snd kv)) c.
Proof.
  simpl. apply and_iff_compat_l.
  induction c as [|[k v] r IH].
  - split; intros; [constructor | exact I].
  - split.
    + intros [Hv Hr]. constructor; [exact Hv | now apply IH].
    + intros H. inversion H; subst. split; [assumption | now apply IH].
Qed.

Lemma uniqueNames_setEntry o a c name ch :
  uniqueNames (MkInode o a c) -> uniqueNames ch ->
  uniqueNames (MkInode o a (setEntry name ch c)).
Proof.
  rewrite !uniqueNames_unfold. intros [Hn Hc] Hch. split.
  - now apply NoDup_setEntry.
  - now apply Forall_setEntry.
Qed.

Lemma uniqueNames_child n name ch :
  uniqueNames n -> GetChild n name = Some ch -> uniqueNames ch.
Proof.
  destruct n as [o a c]. rewrite uniqueNames_unfold. intros [_ Hc] Hg.
  unfold GetChild in Hg. simpl in Hg. apply lookup_Some_In in Hg.
  rewrite Forall_forall in Hc. exact (Hc _ Hg).
Qed.

Lemma AddChild_overwrite n name ch :
  fst (AddChild n name ch true) = MkInode (ops n) (attr n) (setEntry name ch (children n)).
Proof. unfold AddChild. now destruct (lookup name (children n)). Qed.

Lemma uniqueNames_new o a : uniqueNames (NewPersistentInode o a).
Proof. simpl. split; [constructor | exact I]. Qed.

Lemma attach_unique components : forall p base f,
  uniqueNames p -> uniqueNames (attach p components base f).
Proof.
  induction components as [|c rest IH]; intros p base f Hp; cbn [attach].
  - rewrite AddChild_overwrite. destruct p as [o a ch]. cbn [ops attr children].
    apply uniqueNames_setEntry; [assumption | apply uniqueNames_new].
  - destruct (Nat.eqb (String.length c) 0); [now apply IH|].
    destruct (GetChild p c) as [ch|] eqn:E.
    + destruct p as [o a l]. cbn [ops attr children].
      apply uniqueNames_setEntry; [assumption|].
      apply IH. exact (uniqueNames_child _ _ _ Hp E).
    + rewrite AddChild_overwrite. destruct p as [o a l]. cbn [ops attr children].
      apply uniqueNames_setEntry; [assumption|].
      apply IH. apply uniqueNames_new.
Qed.

Lemma addFile_unique root f : uniqueNames root -> uniqueNames (addFile root f).
Proof.
  intros H. unfold addFile. destruct (IsDir f); [assumption|].
  destruct (Split (Clean (Name f))) as [dir base]. now apply attach_unique.
Qed.

Lemma OnAdd_unique files : forall root,
  uniqueNames root -> uniqueNames (OnAdd root files).
Proof.
  unfold OnAdd. induction files as [|f r IH]; intros root H; simpl.
  - assumption.
  - apply IH, addFile_unique, H.
Qed.

(** *** The orders of three keys *)

Lemma Permutation_three {A} (x y z : A) l :
  Permutation l [x; y; z] ->
  l = [x; y; z] \/ l = [x; z; y] \/ l = [y; x; z] \/
  l = [z; x; y] \/ l = [y; z; x] \/ l = [z; y; x].
Proof.
  intros H.
  destruct (Permutation_vs_cons_inv H) as (l1 & l2 & ->).
  apply Permutation_sym, Permutation_cons_app_inv, Permutation_length_2_inv in H.
  destruct l1 as [|p [|q [|r l1]]]; simpl in *.
  - destruct H as [<-|<-]; auto.
  - destruct H as [H|H]; inversion H; subst; auto.
  - destruct H as [H|H]; inversion H; subst; auto 6.
  - destruct H as [H|H]; inversion H.
Qed.

Ltac perm2 := first [apply Permutation_refl | apply perm_swap].

Ltac show_shape :=
  unfold exampleShape; do 2 eexists;
  split; [reflexivity|];
  split; [cbv; reflexivity|];
  split; [reflexivity|];
  split; [cbv; perm2|];
  split; [reflexivity | cbv; perm2].

(** C5. Whatever the order in which the keys [a/b/c.txt], [a/b/d.txt] and
    [a/e.txt] are added to an empty root, the tree has exactly one child of
    the root, the directory [a]; [a] has exactly the directory [b] and the
    file [e.txt]; [b] has exactly the files [c.txt] and [d.txt].  And for
    every tree and every list of keys: when no name occurs twice under a
    parent before [OnAdd], none does after it. *)
Theorem OnAdd_three_keys (files : list File) :
  Permutation files threeKeys ->
  exampleShape (OnAdd emptyRoot files) /\
  (forall root more, uniqueNames root -> uniqueNames (OnAdd root more)).
Proof.
  intros H. split; [|intros root more; apply OnAdd_unique].
  apply Permutation_three in H.
  destruct H as [->|[->|[->|[->|[->| ->]]]]]; show_shape.
Qed.

Lemma OnAdd_three_keys_witness :
  exampleShape (OnAdd emptyRoot [key "a/e.txt"; key "a/b/c.txt"; key "a/b/d.txt"]).
Proof.
  apply (OnAdd_three_keys [key "a/e.txt"; key "a/b/c.txt"; key "a/b/d.txt"]).
  unfold threeKeys.
  apply (Permutation_cons_app [_; _] []), Permutation_refl.
Defined.

(** *** What [attach] leaves behind *)

Lemma GetChild_setEntry o a c name ch :
  GetChild (MkInode o a (setEntry name ch c)) name = Some ch.
Proof. unfold GetChild. simpl. apply lookup_setEntry_same. Qed.

Lemma attach_kind components : forall p base f,
  ops (attach p components base f) = ops p /\
  attr (attach p components base f) = attr p.
Proof.
  induction components as [|c rest IH]; intros p base f; cbn [attach].
  - rewrite AddChild_overwrite. split; reflexivity.
  - destruct (Nat.eqb (String.length c) 0); [apply IH|].
    destruct (GetChild p c); [split; reflexivity|].
    rewrite AddChild_overwrite. split; reflexivity.
Qed.






End TreeFacts.

(** ** The retry policy *)
Module BackoffFacts.
Import GoInt GoIntFacts Backoff.








(** *** Rounding to 53 bits *)





(** *** Rounding on the common scale *)




(** *** Conversions between integers and floats *)







(** *** The delay before the cap *)





(** *** The delay as a function of the attempt *)








End BackoffFacts.

(** ** Paths *)
Module FilepathFacts.
Import Filepath FilepathMore.
Open Scope string_scope.

Lemma Split_app (p : string) : fst (Split p) ++ snd (Split p) = p.
Proof.
  induction p as [|c r IH]; [reflexivity|].
  simpl. destruct (Split r) as [dir file]. simpl in IH.
  destruct (String.eqb_spec dir "") as [E | E].
  - subst dir. simpl in IH. subst file.
    destruct (Ascii.eqb c slash); reflexivity.
  - simpl. now rewrite IH.
Qed.

Lemma Split_file (p : string) : contains slash (snd (Split p)) = false.
Proof.
  induction p as [|c r IH]; [reflexivity|].
  simpl. destruct (Split r) as [dir file] eqn:ES. simpl in IH.
  destruct (String.eqb_spec dir "") as [E | E].
  - subst dir. pose proof (Split_app r) as A. rewrite ES in A. simpl in A. subst file.
    destruct (Ascii.eqb c slash) eqn:Ec; simpl; [exact IH | now rewrite Ec, IH].
  - exact IH.
Qed.

Lemma splitSlash_cons (s : string) : exists h t, splitSlash s = h :: t.
Proof.
  induction s as [|c r [h [t IH]]]; simpl; [now eexists; eexists|].
  destruct (Ascii.eqb c slash); [now eexists; eexists|].
  rewrite IH. now eexists; eexists.
Qed.

Lemma splitSlash_noslash (s : string) :
  Forall (fun e => contains slash e = false) (splitSlash s).
Proof.
  induction s as [|c r IH]; simpl; [now constructor|].
  destruct (Ascii.eqb c slash) eqn:Ec; [now constructor|].
  destruct (splitSlash r) as [|h t]; [now repeat constructor; simpl; rewrite Ec|].
  inversion IH; subst. constructor; [simpl; now rewrite Ec | assumption].
Qed.

Lemma splitSlash_one (x : string) : contains slash x = false -> splitSlash x = [x].
Proof.
  induction x as [|c r IH]; [reflexivity|]. simpl.
  destruct (Ascii.eqb c slash); [discriminate|]. simpl. intros H. now rewrite IH.
Qed.

Lemma splitSlash_app (x s : string) :
  contains slash x = false -> splitSlash (x ++ "/" ++ s) = x :: splitSlash s.
Proof.
  induction x as [|c r IH]; [reflexivity|]. simpl.
  destruct (Ascii.eqb c slash); [discriminate|]. simpl. intros H.
  change (splitSlash (r ++ String "/" s)) with (splitSlash (r ++ "/" ++ s)).
  now rewrite IH.
Qed.

(** [strings.Split] undoes [strings.Join] on elements without separator. *)
Lemma splitSlash_joinSlash (l : list string) :
  l <> [] -> Forall (fun e => contains slash e = false) l ->
  splitSlash (joinSlash l) = l.
Proof.
  induction l as [|x r IH]; [congruence|]. intros _ F. inversion F; subst.
  destruct r as [|y r'].
  - simpl. now apply splitSlash_one.
  - change (joinSlash (x :: y :: r')) with (x ++ "/" ++ joinSlash (y :: r')).
    rewrite splitSlash_app by assumption. f_equal. apply IH; [congruence | assumption].
Qed.

Lemma forallb_isDotDot_cleanStack (l : list string) :
  forallb isDotDot l = true -> cleanStack l = true.
Proof.
  destruct l as [|e r]; [reflexivity|]. simpl.
  intros H. apply andb_prop in H. destruct H as [H1 H2]. now rewrite H1.
Qed.

Lemma cleanStack_below (e : string) (below : list string) :
  cleanStack (e :: below) = true -> cleanStack below = true.
Proof.
  simpl. destruct (isDotDot e).
  - apply forallb_isDotDot_cleanStack.
  - intros H. now apply andb_prop in H.
Qed.

Lemma cleanStack_app_r (a b : list string) :
  cleanStack (a ++ b) = true -> cleanStack b = true.
Proof.
  induction a as [|e a IH]; [trivial|]. intros H. apply IH.
  now apply (cleanStack_below e).
Qed.

Lemma isName_spec (e : string) :
  contains slash e = false ->
  (e =? "") || (e =? ".") = false -> (e =? "..") = false -> isName e = true.
Proof.
  intros Hs H1 H2. apply orb_false_elim in H1. destruct H1 as [Ha Hb].
  unfold isName. now rewrite Ha, Hb, H2, Hs.
Qed.

(** [Clean] leaves a clean stack. *)
Lemma cleanElems_cleanStack (elems stack : list string) :
  Forall (fun e => contains slash e = false) elems ->
  cleanStack stack = true -> cleanStack (cleanElems false stack elems) = true.
Proof.
  revert stack. induction elems as [|e r IH]; intros stack F C; [exact C|].
  inversion F as [|? ? Fe Fr]; subst. simpl.
  destruct ((e =? "") || (e =? ".")) eqn:E1; [now apply IH|].
  destruct (e =? "..") eqn:E2.
  - destruct stack as [|top below].
    + apply IH; [assumption|]. simpl. unfold isDotDot. now rewrite E2.
    + destruct (top =? "..") eqn:E3.
      * apply IH; [assumption|]. simpl. unfold isDotDot at 1. rewrite E2.
        simpl in C. unfold isDotDot at 1 in C. rewrite E3 in C.
        simpl. unfold isDotDot at 1. now rewrite E3.
      * apply IH; [assumption|]. now apply (cleanStack_below top).
  - apply IH; [assumption|]. simpl. unfold isDotDot. rewrite E2.
    now rewrite (isName_spec e Fe E1 E2).
Qed.

(** On the elements of a clean stack [Clean] changes nothing. *)
Lemma cleanElems_fixed (l stack : list string) :
  cleanStack (rev l ++ stack) = true -> cleanElems false stack l = (rev l ++ stack)%list.
Proof.
  revert stack. induction l as [|e l IH]; intros stack C; [reflexivity|].
  simpl in C. rewrite <- app_assoc in C. simpl in C.
  pose proof (cleanStack_app_r _ _ C) as Ce.
  simpl. rewrite <- app_assoc. simpl. rewrite <- (IH (e :: stack) C).
  simpl in Ce. unfold isDotDot at 1 in Ce.
  destruct (e =? "..") eqn:E2.
  - apply String.eqb_eq in E2. subst e. simpl.
    destruct stack as [|top below]; [reflexivity|].
    simpl in Ce. apply andb_prop in Ce. destruct Ce as [Ct _].
    unfold isDotDot in Ct. now rewrite Ct.
  - apply andb_prop in Ce. destruct Ce as [Cn _]. unfold isName in Cn.
    rewrite E2 in Cn.
    destruct (e =? ""); [discriminate|]. destruct (e =? "."); [discriminate|].
    reflexivity.
Qed.

Lemma cleanStack_noslash (stack : list string) :
  cleanStack stack = true ->
  Forall (fun e => contains slash e = false /\ e <> "") stack.
Proof.
  induction stack as [|e below IH]; [constructor|]. intros C.
  constructor; [|apply IH; now apply (cleanStack_below e)].
  simpl in C. unfold isDotDot at 1 in C. destruct (e =? "..") eqn:E.
  - apply String.eqb_eq in E. subst e. split; [reflexivity | discriminate].
  - apply andb_prop in C. destruct C as [Cn _]. unfold isName in Cn.
    destruct (String.eqb_spec e ""); [discriminate|].
    destruct (contains slash e); [|now split].
    rewrite andb_false_r in Cn. discriminate.
Qed.

(** What the key of an object is made of. *)
Lemma Clean_relative (p : string) :
  Clean ("./" ++ p) =
  let out := joinSlash (rev (cleanElems false [] (splitSlash p))) in
  if out =? "" then "." else out.
Proof.
  unfold Clean. simpl. destruct (splitSlash_cons p) as [h [t E]]. rewrite E. reflexivity.
Qed.

End FilepathFacts.

(** ** More of the client *)
Module ClientMoreFacts.
Import Filepath FilepathMore Client ClientMore.
Open Scope string_scope.

Section WithBackend.
Context (B : Backend).

(** X1. When the bucket check of a method fails (the name has at most two
    bytes, or the probe is answered with an error), DeleteObject, GetObject
    and DeleteBucket return [ErrInvalidBucketName], while HeadObject returns
    length 0 and no error; none of them sends a request after the probe. *)
Theorem bucket_check_failed (user bucket path : string) (fuel : nat) (w : World B) :
  ((String.length bucket <= 2)%nat \/
   exists e, fst (be_HeadBucket B bucket (st w)) = Some e) ->
  let w' := if (String.length bucket <=? 2)%nat then w
            else sent w [HeadBucketCall bucket] (snd (be_HeadBucket B bucket (st w))) in
  HeadObject B user bucket path w = (Returns (0%Z, None), w') /\
  DeleteObject B user bucket path w = (Returns (Some ErrInvalidBucketName), w') /\
  GetObject B user bucket path w = (Returns (None, Some ErrInvalidBucketName), w') /\
  DeleteBucket B fuel user bucket w = (Returns (Some ErrInvalidBucketName), w').
Proof.
  intros H w'.
  assert (V : exists v, validateBucket B bucket w = (Returns v, w') /\ (v =? 1)%Z = false).
  { subst w'. destruct (Nat.leb_spec (String.length bucket) 2) as [Hs | Hl].
    - exists (-1)%Z. split; [now apply ClientFacts.validateBucket_short | reflexivity].
    - destruct H as [Hs | [e He]]; [lia|].
      destruct (be_HeadBucket B bucket (st w)) as [e' s1] eqn:Hp. simpl in He. subst e'.
      exists 0%Z. split; [|reflexivity].
      now rewrite (ClientFacts.validateBucket_probe B bucket w (Some e) s1 Hl Hp). }
  destruct V as [v [Hv Hne]].
  unfold HeadObject, DeleteObject, GetObject, DeleteBucket, bind.
  rewrite Hv, Hne. simpl. repeat split; reflexivity.
Qed.


(** X3. On a bucket whose listing comes back empty and not truncated,
    [DeleteBucket] asks the backend to remove the bucket and returns the
    answer to that request, nil or the error, as it is. *)
Theorem DeleteBucket_empty_bucket (fuel : nat) (user name : string)
  (w : World B) s1 out s2 e s3 :
  (2 < String.length name)%nat ->
  be_HeadBucket B name (st w) = (None, s1) ->
  be_ListObjectsV2 B name None s1 = ((out, None), s2) ->
  Contents out = [] -> IsTruncated out = false ->
  be_DeleteBucket B name s2 = (e, s3) ->
  DeleteBucket B (S fuel) user name w =
  (Returns (liftErr e),
   sent w [HeadBucketCall name; ListObjectsV2Call name None; DeleteBucketCall name] s3).
Proof.
  intros H Hp Hl Hc Ht Hd. unfold DeleteBucket, bind at 1.
  rewrite (ClientFacts.validateBucket_probe B name w None s1 H Hp). simpl.
  unfold bind at 1. unfold bind at 1. unfold request at 1. simpl. rewrite Hl.
  cbv zeta. cbn [liftErr option_map]. rewrite Hc. unfold bind at 1. simpl.
  rewrite Ht. unfold ret at 1. unfold bind, request. simpl. rewrite Hd.
  unfold ret, sent. simpl. now rewrite <- !app_assoc.
Qed.

(** X4. For a name of more than two bytes [CreateBucket] probes the bucket
    twice and only the second answer counts: when the second probe finds the
    bucket, the call fails with [ErrBucketExisted] and sends no create
    request; otherwise it sends one and returns the bucket, or the error of
    the create request. *)
Theorem CreateBucket_second_probe_decides (user name : string) (w : World B)
  e1 s1 e2 s2 e3 s3 :
  (2 < String.length name)%nat ->
  be_HeadBucket B name (st w) = (e1, s1) ->
  be_HeadBucket B name s1 = (e2, s2) ->
  be_CreateBucket B name s2 = (e3, s3) ->
  CreateBucket B user name w =
  match e2 with
  | None => (Returns (None, Some ErrBucketExisted),
             sent w [HeadBucketCall name; HeadBucketCall name] s2)
  | Some _ =>
      (Returns (match e3 with
                | None => (Some {| Name := name |}, None)
                | Some e => (None, Some (ErrSDK e))
                end),
       sent w [HeadBucketCall name; HeadBucketCall name; CreateBucketCall name] s3)
  end.
Proof.
  intros H Hp1 Hp2 Hc. unfold CreateBucket, bind at 1.
  rewrite (ClientFacts.validateBucket_probe B name w e1 s1 H Hp1).
  assert (E : ((match e1 with None => 1 | Some _ => 0 end) =? -1)%Z = false)
    by (destruct e1; reflexivity).
  rewrite E. unfold bind at 1.
  rewrite (ClientFacts.validateBucket_probe B name (sent w [HeadBucketCall name] s1)
             e2 s2 H Hp2).
  rewrite ClientFacts.sent_sent. destruct e2 as [e2|]; simpl.
  - unfold bind, request. simpl. rewrite Hc. unfold ret, sent. simpl.
    rewrite <- app_assoc. destruct e3; reflexivity.
  - reflexivity.
Qed.

End WithBackend.

(** X5. The key the object methods send, [Clean("./" + path)]: a leading
    separator of the path makes no difference, the key is a fixed point of
    the normalisation, it is never empty and never starts with a separator,
    and [Split] cuts it into a prefix and a name without separator that
    concatenate to the key. *)
Theorem object_key_normal (path : string) :
  let k := Clean ("./" ++ path) in
  Clean ("./" ++ "/" ++ path) = k /\
  Clean ("./" ++ k) = k /\
  k <> "" /\ (forall r, k <> String slash r) /\
  (fst (Split k) ++ snd (Split k))%string = k /\
  contains slash (snd (Split k)) = false.
Proof.
  intros k. subst k.
  split; [now rewrite !FilepathFacts.Clean_relative|].
  split; [|split; [|split; [|split; [apply FilepathFacts.Split_app
                                    | apply FilepathFacts.Split_file]]]].
  - rewrite (FilepathFacts.Clean_relative path). cbv zeta.
    set (stack := cleanElems false [] (splitSlash path)).
    assert (C : cleanStack stack = true).
    { apply FilepathFacts.cleanElems_cleanStack;
        [apply FilepathFacts.splitSlash_noslash | reflexivity]. }
    destruct (String.eqb_spec (joinSlash (rev stack)) "") as [E | E]; [reflexivity|].
    rewrite FilepathFacts.Clean_relative. cbv zeta.
    rewrite FilepathFacts.splitSlash_joinSlash.
    + rewrite FilepathFacts.cleanElems_fixed; rewrite rev_involutive, app_nil_r;
        [|exact C].
      destruct (String.eqb_spec (joinSlash (rev stack)) ""); [contradiction | reflexivity].
    + intros N. rewrite N in E. now apply E.
    + apply Forall_rev. eapply Forall_impl; [|apply FilepathFacts.cleanStack_noslash, C].
      now intros a [Ha _].
  - rewrite FilepathFacts.Clean_relative. cbv zeta.
    destruct (String.eqb_spec (joinSlash (rev (cleanElems false [] (splitSlash path)))) "");
      [discriminate | assumption].
  - intros r. rewrite FilepathFacts.Clean_relative. cbv zeta.
    set (stack := cleanElems false [] (splitSlash path)).
    assert (C : cleanStack stack = true).
    { apply FilepathFacts.cleanElems_cleanStack;
        [apply FilepathFacts.splitSlash_noslash | reflexivity]. }
    destruct (String.eqb_spec (joinSlash (rev stack)) "") as [E | E]; [discriminate|].
    pose proof (Forall_rev (FilepathFacts.cleanStack_noslash stack C)) as F.
    destruct (rev stack) as [|e l]; [now elim E|].
    inversion F as [|? ? [Hs Hne] _]; subst.
    destruct e as [|c e']; [now elim Hne|].
    simpl in Hs. apply orb_false_elim in Hs. destruct Hs as [Hc _].
    intros Heq. assert (c = slash).
    { destruct l; simpl in Heq; now inversion Heq. }
    subst c. now rewrite Ascii.eqb_refl in Hc.
Qed.

Section WithBackend.
Context (B : Backend).

(** X6. When the download of [GetObject] ends without error on exactly the
    length [HeadObject] announced, the call succeeds after four requests, and
    the object it returns names the bucket and the key (prefix and name
    concatenate to the normalised key) but carries no content: size and data
    are zero whatever was downloaded. *)
Theorem GetObject_delivers_no_content (user bucket path : string) (w : World B)
  s1 s2 s3 s4 (contentLength : Z) :
  (2 < String.length bucket)%nat ->
  be_HeadBucket B bucket (st w) = (None, s1) ->
  be_HeadBucket B bucket s1 = (None, s2) ->
  be_HeadObject B bucket (Clean ("./" ++ path)) s2 = ((contentLength, None), s3) ->
  (0 <= contentLength)%Z ->
  be_Download B bucket (Clean ("./" ++ path)) s3 = ((contentLength, None), s4) ->
  exists o,
    GetObject B user bucket path w =
    (Returns (Some o, None),
     sent w [HeadBucketCall bucket; HeadBucketCall bucket;
             HeadObjectCall bucket (Clean ("./" ++ path));
             DownloadCall bucket (Clean ("./" ++ path)) contentLength] s4) /\
    obj_Bucket o = bucket /\
    (obj_Prefix o ++ obj_Name o)%string = Clean ("./" ++ path) /\
    contains slash (obj_Name o) = false /\
    obj_Size o = 0%Z /\ obj_Data o = 0%Z.
Proof.
  intros H Hp1 Hp2 Hh Hlen Hd.
  pose proof (FilepathFacts.Split_app (Clean ("./" ++ path))) as SA.
  pose proof (FilepathFacts.Split_file (Clean ("./" ++ path))) as SF.
  pose proof (ClientFacts.HeadObject_ok B user bucket path) as HO.
  unfold GetObject, bind at 1.
  set (cpath := Clean ("./" ++ path)) in *.
  rewrite (ClientFacts.validateBucket_probe B bucket w None s1 H Hp1). simpl.
  destruct (Split cpath) as [dir file_name]. simpl in SA, SF.
  unfold bind at 1.
  rewrite (HO (sent w [HeadBucketCall bucket] s1) s2 contentLength None s3 H Hp2 Hh).
  rewrite ClientFacts.sent_sent. simpl.
  destruct (Z.ltb_spec contentLength 0); [lia|].
  unfold bind, request. simpl. rewrite Hd. rewrite Z.eqb_refl. simpl.
  eexists. split.
  - unfold ret, sent. simpl. now rewrite <- app_assoc.
  - repeat split; simpl; assumption || reflexivity.
Qed.

End WithBackend.

Section WithBackendX.
Context (B : BackendX).

(** X7. [ListObject] always returns, and the list it returns is empty: on a
    bucket that passes the check the listing request is sent, but whatever
    keys the backend lists, the caller gets no object and, when the request
    succeeded, no error either. *)
Theorem ListObject_lists_nothing (user bucket path : string) (w : WorldX B) :
  (exists e w', ListObject B user bucket path w = (Returns ([], e), w')) /\
  (forall s1 keys s2,
     (2 < String.length bucket)%nat ->
     be_HeadBucket B bucket (stX w) = (None, s1) ->
     be_ListObjects B bucket (Clean ("./" ++ path)) s1 = ((keys, None), s2) ->
     ListObject B user bucket path w =
     (Returns ([], None),
      {| stX := s2;
         callsX := (callsX w ++ [Base (HeadBucketCall bucket);
                                 ListObjectsCall bucket (Clean ("./" ++ path))])%list |})).
Proof.
  split.
  - unfold ListObject, bindX, lift, validateBucket.
    set (cpath := Clean ("./" ++ path)).
    destruct (Z.of_nat (String.length bucket) <=? 2)%Z.
    + simpl. do 2 eexists; reflexivity.
    + unfold bind, HeadBucket, bind, request. simpl.
      destruct (be_HeadBucket B bucket (stX w)) as [[e|] s1]; simpl.
      * do 2 eexists; reflexivity.
      * unfold requestX. simpl.
        destruct (be_ListObjects B bucket cpath s1) as [[keys [e|]] s2];
          do 2 eexists; reflexivity.
  - intros s1 keys s2 H Hp Hl. unfold ListObject, bindX, lift.
    set (cpath := Clean ("./" ++ path)) in *.
    rewrite (ClientFacts.validateBucket_probe B bucket (Build_World B (stX w) []) None s1 H Hp). simpl.
    unfold requestX. simpl. rewrite Hl. unfold retX. simpl.
    now rewrite <- app_assoc.
Qed.

(** X8. A successful [UploadObject] sends the upload under the normalised
    key and returns an object whose bucket field is empty (unlike the other
    methods, it does not record the bucket), with prefix and name that
    concatenate to the key. *)
Theorem UploadObject_forgets_bucket (user bucket path : string) (w : WorldX B) s1 s2 :
  (2 < String.length bucket)%nat ->
  be_HeadBucket B bucket (stX w) = (None, s1) ->
  be_Upload B bucket (Clean ("./" ++ path)) s1 = (None, s2) ->
  exists o,
    UploadObject B user bucket path w =
    (Returns (Some o, None),
     {| stX := s2;
        callsX := (callsX w ++ [Base (HeadBucketCall bucket);
                                UploadCall bucket (Clean ("./" ++ path))])%list |}) /\
    obj_Bucket o = "" /\
    (obj_Prefix o ++ obj_Name o)%string = Clean ("./" ++ path).
Proof.
  intros H Hp Hu.
  pose proof (FilepathFacts.Split_app (Clean ("./" ++ path))) as SA.
  unfold UploadObject, bindX at 1, lift.
  set (cpath := Clean ("./" ++ path)) in *.
  rewrite (ClientFacts.validateBucket_probe B bucket (Build_World B (stX w) []) None s1 H Hp). simpl.
  destruct (Split cpath) as [dir file_name]. simpl in SA.
  unfold bindX, requestX. simpl. rewrite Hu. unfold retX. simpl.
  eexists. split.
  - now rewrite <- app_assoc.
  - split; [reflexivity | exact SA].
Qed.

End WithBackendX.

Lemma bucket_check_failed_witness :
  HeadObject memBackend "user" "nowhere" "k1" (world0 store1)
  = (Returns (0%Z, None), sent (world0 store1) [HeadBucketCall "nowhere"] store1) /\
  DeleteObject memBackend "user" "nowhere" "k1" (world0 store1)
  = (Returns (Some ErrInvalidBucketName),
     sent (world0 store1) [HeadBucketCall "nowhere"] store1) /\
  GetObject memBackend "user" "nowhere" "k1" (world0 store1)
  = (Returns (None, Some ErrInvalidBucketName),
     sent (world0 store1) [HeadBucketCall "nowhere"] store1) /\
  DeleteBucket memBackend 1 "user" "nowhere" (world0 store1)
  = (Returns (Some ErrInvalidBucketName),
     sent (world0 store1) [HeadBucketCall "nowhere"] store1).
Proof.
  apply (bucket_check_failed memBackend "user" "nowhere" "k1" 1 (world0 store1)).
  right. exists (APIError "NotFound"). reflexivity.
Defined.


Lemma DeleteBucket_empty_bucket_witness :
  DeleteBucket memBackend 1 "user" "spare"
    (world0 {| buckets := [("spare", [])]; denied := []; shortBy := 0 |})
  = (Returns None,
     Build_World memBackend {| buckets := []; denied := []; shortBy := 0 |}
       [HeadBucketCall "spare"; ListObjectsV2Call "spare" None; DeleteBucketCall "spare"]).
Proof.
  apply (DeleteBucket_empty_bucket memBackend 0 "user" "spare"
           (world0 {| buckets := [("spare", [])]; denied := []; shortBy := 0 |})
           {| buckets := [("spare", [])]; denied := []; shortBy := 0 |}
           {| Contents := []; IsTruncated := false;
              ContinuationToken := None; NextContinuationToken := None |}
           {| buckets := [("spare", [])]; denied := []; shortBy := 0 |}
           None {| buckets := []; denied := []; shortBy := 0 |});
    [simpl; lia | reflexivity | reflexivity | reflexivity | reflexivity | reflexivity].
Defined.

Lemma CreateBucket_second_probe_decides_witness :
  fst (CreateBucket memBackend "user" "fresh" (world0 store1))
  = Returns (Some {| Name := "fresh" |}, None) /\
  fst (CreateBucket memBackend "user" "my-data" (world0 store1))
  = Returns (None, Some ErrBucketExisted).
Proof.
  split.
  - rewrite (CreateBucket_second_probe_decides memBackend "user" "fresh" (world0 store1)
               (Some (APIError "NotFound")) store1 (Some (APIError "NotFound")) store1
               None (withBuckets store1 (buckets store1 ++ [("fresh", [])])));
      [reflexivity | simpl; lia | reflexivity | reflexivity | reflexivity].
  - rewrite (CreateBucket_second_probe_decides memBackend "user" "my-data" (world0 store1)
               None store1 None store1 (Some BucketAlreadyExists) store1);
      [reflexivity | simpl; lia | reflexivity | reflexivity | reflexivity].
Defined.

Lemma GetObject_delivers_no_content_witness :
  exists o,
    GetObject memBackend "user" "my-data" "/k2" (world0 store1) =
    (Returns (Some o, None),
     sent (world0 store1)
       [HeadBucketCall "my-data"; HeadBucketCall "my-data";
        HeadObjectCall "my-data" (Clean ("./" ++ "/k2"));
        DownloadCall "my-data" (Clean ("./" ++ "/k2")) 5] store1) /\
    obj_Bucket o = "my-data" /\
    (obj_Prefix o ++ obj_Name o)%string = Clean ("./" ++ "/k2") /\
    contains slash (obj_Name o) = false /\
    obj_Size o = 0%Z /\ obj_Data o = 0%Z.
Proof.
  apply (GetObject_delivers_no_content memBackend "user" "my-data" "/k2" (world0 store1)
           store1 store1 store1 store1 5);
    [simpl; lia | reflexivity | reflexivity | reflexivity | lia | reflexivity].
Defined.

Lemma ListObject_lists_nothing_witness :
  ListObject memBackendX "user" "my-data" "k" (worldX0 store1)
  = (Returns ([], None),
     Build_WorldX memBackendX store1
       [Base (HeadBucketCall "my-data"); ListObjectsCall "my-data" "k"]).
Proof.
  destruct (ListObject_lists_nothing memBackendX "user" "my-data" "k" (worldX0 store1))
    as [_ Hl].
  apply (Hl store1 ["k1"; "k2"] store1); [simpl; lia | reflexivity | reflexivity].
Defined.

Lemma UploadObject_forgets_bucket_witness :
  exists o,
    UploadObject memBackendX "user" "my-data" "a/b" (worldX0 store1) =
    (Returns (Some o, None),
     Build_WorldX memBackendX
       (withBuckets store1 [("my-data", [("a/b", 0%Z); ("k1", 3%Z); ("k2", 5%Z)])])
       [Base (HeadBucketCall "my-data"); UploadCall "my-data" (Clean ("./" ++ "a/b"))]) /\
    obj_Bucket o = "" /\
    (obj_Prefix o ++ obj_Name o)%string = Clean ("./" ++ "a/b").
Proof.
  apply (UploadObject_forgets_bucket memBackendX "user" "my-data" "a/b" (worldX0 store1)
           store1
           (withBuckets store1 [("my-data", [("a/b", 0%Z); ("k1", 3%Z); ("k2", 5%Z)])]));
    [simpl; lia | reflexivity | reflexivity].
Defined.

Section ReverseFacts.
Context {rune : Type}.

Lemma store_middle (pre : list rune) (x y : rune) (t : list rune) :
  store (pre ++ x :: t) (List.length pre) y = Some (pre ++ y :: t)%list.
Proof.
  induction pre as [|h pre IH]; [reflexivity|]. simpl. now rewrite IH.
Qed.

Lemma nth_error_middle (pre : list rune) (x : rune) (t : list rune) :
  nth_error (pre ++ x :: t) (List.length pre) = Some x.
Proof.
  induction pre as [|h pre IH]; [reflexivity|]. exact IH.
Qed.

Lemma half_between (p m : nat) :
  (Nat.ltb p (Nat.div (p + m + p) 2)) = (Nat.leb 2 m).
Proof.
  destruct (Nat.leb_spec 2 m) as [H | H].
  - apply Nat.ltb_lt. apply (Nat.div_le_lower_bound (p + m + p) 2 (S p)); lia.
  - apply Nat.ltb_ge. assert (p + m + p < 2 * (p + 1))%nat by lia.
    assert (Nat.div (p + m + p) 2 < p + 1)%nat; [|lia].
    apply Nat.Div0.div_lt_upper_bound. lia.
Qed.

Lemma swap_ends (pre m post : list rune) (a b : rune) :
  swap (pre ++ a :: m ++ b :: post) (List.length pre) (List.length (pre ++ a :: m))
  = Some (pre ++ b :: m ++ a :: post)%list.
Proof.
  unfold swap. rewrite nth_error_middle.
  replace (pre ++ a :: m ++ b :: post)%list with ((pre ++ a :: m) ++ b :: post)%list
    by (rewrite <- app_assoc; reflexivity).
  rewrite nth_error_middle.
  replace ((pre ++ a :: m) ++ b :: post)%list with (pre ++ a :: m ++ b :: post)%list
    by (rewrite <- app_assoc; reflexivity).
  rewrite store_middle.
  replace (List.length (pre ++ a :: m)) with (List.length (pre ++ b :: m))
    by (rewrite !length_app; reflexivity).
  replace (pre ++ b :: m ++ b :: post)%list with ((pre ++ b :: m) ++ b :: post)%list
    by (rewrite <- app_assoc; reflexivity).
  rewrite store_middle. now rewrite <- app_assoc.
Qed.

(** The loop with [i] runes done at each end: the middle is reversed, the
    two ends stay. *)
Lemma reverseLoop_middle (fuel : nat) :
  forall (mid pre post : list rune),
    List.length pre = List.length post -> (List.length mid <= fuel)%nat ->
    reverseLoop fuel (pre ++ mid ++ post) (List.length pre)
      (List.length pre + List.length mid - 1)
    = Some (pre ++ rev mid ++ post)%list.
Proof.
  induction fuel as [|fuel IH]; intros mid pre post Hl Hf.
  - destruct mid; [reflexivity | simpl in Hf; lia].
  - cbn [reverseLoop].
    replace (List.length (pre ++ mid ++ post))
      with (List.length pre + List.length mid + List.length pre)%nat
      by (rewrite !length_app; lia).
    rewrite half_between.
    destruct mid as [|a mid]; [reflexivity|].
    destruct (exists_last (l := a :: mid)) as [m' [b E]]; [discriminate|].
    destruct m' as [|a' m'].
    + (* one rune in the middle *)
      destruct mid; [reflexivity | destruct mid; simpl in E; discriminate].
    + simpl in E. inversion E; subst a' mid. clear E.
      replace (Nat.leb 2 (List.length (a :: m' ++ [b]))) with true
        by (symmetry; apply Nat.leb_le; simpl; rewrite length_app; simpl; lia).
      replace (List.length pre + List.length (a :: m' ++ [b]) - 1)%nat
        with (List.length (pre ++ a :: m'))
        by (simpl; rewrite !length_app; simpl; lia).
      replace (pre ++ (a :: m' ++ [b]) ++ post)%list
        with (pre ++ a :: m' ++ b :: post)%list
        by (simpl; rewrite <- !app_assoc; reflexivity).
      rewrite swap_ends.
      replace (pre ++ b :: m' ++ a :: post)%list
        with ((pre ++ [b]) ++ m' ++ (a :: post))%list
        by (rewrite <- !app_assoc; reflexivity).
      replace (List.length pre + 1)%nat with (List.length (pre ++ [b]))
        by (rewrite length_app; reflexivity).
      replace (List.length (pre ++ a :: m') - 1)%nat
        with (List.length (pre ++ [b]) + List.length m' - 1)%nat
        by (rewrite !length_app; simpl; lia).
      rewrite IH.
      * f_equal. simpl. rewrite rev_app_distr. simpl.
        rewrite <- !app_assoc. reflexivity.
      * rewrite length_app. simpl. lia.
      * simpl in Hf. rewrite length_app in Hf. simpl in Hf. lia.
Qed.

(** X9. [reverse] never indexes out of range and returns the runes in the
    opposite order; applied twice it gives the slice back. *)
Theorem reverse_is_rev (r : list rune) :
  reverse r = Some (rev r) /\
  (forall r', reverse r = Some r' ->
     List.length r' = List.length r /\ reverse r' = Some r).
Proof.
  assert (R : forall l : list rune, reverse l = Some (rev l)).
  { intros l. unfold reverse.
    pose proof (reverseLoop_middle (List.length l) l [] [] eq_refl (le_n _)) as H.
    cbn [List.length app Nat.add] in H. rewrite !app_nil_r in H. exact H. }
  split; [apply R|].
  intros r' H. rewrite R in H. inversion H; subst r'.
  split; [apply length_rev|]. rewrite R. now rewrite rev_involutive.
Qed.

End ReverseFacts.

Section Paging.
Context (B : Backend).

Lemma deletePages_repeats (user name : string) (token : option string)
  (out : ListObjectsV2Output) :
  (forall s, be_ListObjectsV2 B name token s = ((out, None), s)) ->
  Contents out = [] -> IsTruncated out = true -> ContinuationToken out = token ->
  forall fuel (w : World B),
    deletePages B fuel user name token w
    = (OutOfFuel, sent w (repeat (ListObjectsV2Call name token) fuel) (st w)).
Proof.
  intros Hl Hc Ht Hk. induction fuel as [|fuel IH]; intros w.
  - cbn. unfold stop, sent. cbn. rewrite app_nil_r. now destruct w.
  - cbn [deletePages]. unfold bind at 1. unfold request at 1. rewrite Hl.
    cbv zeta. cbn [liftErr option_map]. rewrite Hc. unfold bind at 1. cbn [deleteItems].
    unfold ret at 1. cbn [Nat.eqb negb]. rewrite Ht, Hk, IH.
    unfold sent. cbn [st calls repeat]. now rewrite <- app_assoc.
Qed.

(** X28. After an empty page that is marked as truncated, the page loop
    of [DeleteBucket] sends the next listing with the token of the page it
    has just received ([out.ContinuationToken]).  Against a backend whose
    answer to the first listing is such a page, carrying the token of the
    request as S3 does, the loop sends the same listing again and again:
    for every bound on the number of pages the call has not returned when
    the bound is reached, and the bucket removal is never requested. *)
Theorem DeleteBucket_repeats_page (user name : string) (w : World B) s1
  (out : ListObjectsV2Output) :
  (2 < String.length name)%nat ->
  be_HeadBucket B name (st w) = (None, s1) ->
  (forall s, be_ListObjectsV2 B name None s = ((out, None), s)) ->
  Contents out = [] -> IsTruncated out = true -> ContinuationToken out = None ->
  forall fuel,
    DeleteBucket B fuel user name w
    = (OutOfFuel,
       sent w (HeadBucketCall name :: repeat (ListObjectsV2Call name None) fuel) s1).
Proof.
  intros H Hp Hl Hc Ht Hk fuel. unfold DeleteBucket, bind at 1.
  rewrite (ClientFacts.validateBucket_probe B name w None s1 H Hp).
  change (negb (1 =? 1)%Z) with false. cbv iota.
  unfold bind. rewrite (deletePages_repeats user name None out Hl Hc Ht Hk).
  rewrite ClientFacts.sent_sent. reflexivity.
Qed.

End Paging.

Lemma DeleteBucket_repeats_page_witness :
  DeleteBucket pagingBackend 5 "user" "my-data" (Build_World pagingBackend store1 [])
  = (OutOfFuel,
     Build_World pagingBackend store1
       (HeadBucketCall "my-data" :: repeat (ListObjectsV2Call "my-data" None) 5)).
Proof.
  apply (DeleteBucket_repeats_page pagingBackend "user" "my-data"
           (Build_World pagingBackend store1 []) store1
           {| Contents := []; IsTruncated := true;
              ContinuationToken := None; NextContinuationToken := Some "next" |});
    [simpl; lia | reflexivity | intros s; reflexivity | reflexivity | reflexivity
    | reflexivity].
Defined.

Lemma reverse_is_rev_witness :
  reverse [1%nat; 2%nat; 3%nat] = Some [3%nat; 2%nat; 1%nat] /\
  reverse [3%nat; 2%nat; 1%nat] = Some [1%nat; 2%nat; 3%nat].
Proof.
  destruct (reverse_is_rev [1%nat; 2%nat; 3%nat]) as [H1 H2].
  split; [exact H1|]. apply (H2 [3%nat; 2%nat; 1%nat]). exact H1.
Defined.

End ClientMoreFacts.

(** ** More of the tree builder *)
Module TreeMoreFacts.
Import Filepath Tree TreeMore.
Open Scope string_scope.
Open Scope list_scope.

Lemma setEntry_setEntry name ch ch' l :
  setEntry name ch (setEntry name ch' l) = setEntry name ch l.
Proof.
  induction l as [|[k v] r IH]; simpl.
  - now rewrite String.eqb_refl.
  - destruct (String.eqb k name) eqn:E; simpl.
    + now rewrite String.eqb_refl.
    + now rewrite E, IH.
Qed.

Lemma attach_twice components : forall p base f,
  attach (attach p components base f) components base f = attach p components base f.
Proof.
  induction components as [|c rest IH]; intros p base f; cbn [attach].
  - rewrite !TreeFacts.AddChild_overwrite. cbn [fst ops attr children].
    now rewrite setEntry_setEntry.
  - destruct (Nat.eqb (String.length c) 0) eqn:E; [apply IH|].
    destruct (GetChild p c) as [ch|] eqn:G.
    + rewrite TreeFacts.GetChild_setEntry. cbn [ops attr children].
      now rewrite IH, setEntry_setEntry.
    + rewrite TreeFacts.AddChild_overwrite. cbn [fst].
      rewrite TreeFacts.GetChild_setEntry. cbn [ops attr children].
      now rewrite IH, setEntry_setEntry.
Qed.






(** X11. Adding an entry a second time changes nothing: the tree after a
    key was added twice in a row is the tree after it was added once. *)
Theorem addFile_idempotent (root : Inode) (f : File) :
  addFile (addFile root f) f = addFile root f /\
  (forall files, OnAdd root (files ++ [f; f]) = OnAdd root (files ++ [f])).
Proof.
  assert (A : forall t, addFile (addFile t f) f = addFile t f).
  { intros t. unfold addFile. destruct (IsDir f); [reflexivity|].
    destruct (Split (Clean (Name f))) as [dir base]. apply attach_twice. }
  split; [apply A|].
  intros files. unfold OnAdd. rewrite !fold_left_app. cbn [fold_left]. apply A.
Qed.

End TreeMoreFacts.

(** ** The client options *)
Module OptionsFacts.
Import Node Options.
Open Scope string_scope.

Lemma splitOn_cons sep (s : string) : exists h t, splitOn sep s = h :: t.
Proof.
  induction s as [|c r [h [t IH]]]; simpl; [now eexists; eexists|].
  destruct (Ascii.eqb c sep); [now eexists; eexists|].
  rewrite IH. now eexists; eexists.
Qed.

Lemma splitOn_free sep (x : string) : free sep x = true -> splitOn sep x = [x].
Proof.
  induction x as [|c r IH]; [reflexivity|]. simpl.
  destruct (Ascii.eqb c sep); [discriminate|]. simpl. intros H. now rewrite IH.
Qed.

Lemma splitOn_app sep (x s : string) :
  free sep x = true -> splitOn sep (x ++ String sep s) = x :: splitOn sep s.
Proof.
  induction x as [|c r IH]; simpl.
  - now rewrite Ascii.eqb_refl.
  - destruct (Ascii.eqb c sep); [discriminate|]. simpl. intros H. now rewrite IH.
Qed.

Lemma splitOn_single sep (e p : string) : splitOn sep e = [p] -> e = p.
Proof.
  revert p. induction e as [|c r IH]; intros p; simpl.
  - intros H. now inversion H.
  - destruct (Ascii.eqb c sep).
    + destruct (splitOn_cons sep r) as [h [t E]]. rewrite E. discriminate.
    + destruct (splitOn sep r) as [|h t] eqn:E.
      * destruct (splitOn_cons sep r) as [h [t E']]. congruence.
      * intros H. inversion H; subst. now rewrite (IH h eq_refl).
Qed.

Lemma free_app c (a b : string) : free c (a ++ b) = free c a && free c b.
Proof.
  induction a as [|x a IH]; [reflexivity|]. simpl. now rewrite IH, andb_assoc.
Qed.

(** One well-formed entry. *)
Lemma splitOn_entry (k v : string) :
  free "="%char k = true -> free "="%char v = true ->
  splitOn "="%char (k ++ "=" ++ v) = [k; v].
Proof.
  intros Hk Hv. change (k ++ "=" ++ v) with (k ++ String "="%char v).
  rewrite splitOn_app by assumption. now rewrite splitOn_free.
Qed.

(** X12. Well-formed arguments are read back: for values without [,] and
    [=], the string [url=U,accesskey=A,secretkey=S] parses to the options
    with exactly these three values; the other fields are empty, not the
    defaults. *)
Theorem ParseOption_reads_back (U A S : string) :
  free ","%char U && free "="%char U = true ->
  free ","%char A && free "="%char A = true ->
  free ","%char S && free "="%char S = true ->
  ParseOption ("url=" ++ U ++ ",accesskey=" ++ A ++ ",secretkey=" ++ S)
  = Ret {| URL := U; ExternalURL := ""; Region := ""; AccessKey := A;
           SecretKey := S; Token := "" |}.
Proof.
  intros HU HA HS.
  apply andb_prop in HU, HA, HS. destruct HU as [U1 U2], HA as [A1 A2], HS as [S1 S2].
  unfold ParseOption.
  change ("url=" ++ U ++ ",accesskey=" ++ A ++ ",secretkey=" ++ S)
    with (("url=" ++ U) ++ String ","%char (("accesskey=" ++ A)
            ++ String ","%char ("secretkey=" ++ S))).
  rewrite !splitOn_app by (rewrite free_app; now apply andb_true_intro).
  rewrite splitOn_free by (rewrite free_app; now apply andb_true_intro).
  cbn [parseEntries].
  change ("url=" ++ U) with ("url" ++ "=" ++ U).
  rewrite (splitOn_entry "url" U eq_refl U2). cbn [String.eqb Ascii.eqb Bool.eqb second].
  change ("accesskey=" ++ A) with ("accesskey" ++ "=" ++ A).
  rewrite (splitOn_entry "accesskey" A eq_refl A2).
  cbn [String.eqb Ascii.eqb Bool.eqb second].
  change ("secretkey=" ++ S) with ("secretkey" ++ "=" ++ S).
  rewrite (splitOn_entry "secretkey" S eq_refl S2).
  reflexivity.
Qed.

Lemma ParseOption_reads_back_witness :
  ParseOption "url=http://s3-endpoint:8000,accesskey=minio,secretkey=minio111"
  = Ret {| URL := "http://s3-endpoint:8000"; ExternalURL := ""; Region := "";
           AccessKey := "minio"; SecretKey := "minio111"; Token := "" |}.
Proof.
  apply (ParseOption_reads_back "http://s3-endpoint:8000" "minio" "minio111");
    reflexivity.
Defined.

(** X13. A value is cut at its first [=]: for a secret [S1=S2], where [S1]
    has no [,] and no [=] and [S2] no [,], the secret key that is stored is
    [S1] alone. *)
Theorem ParseOption_cuts_value (S1 S2 : string) :
  free ","%char S1 && free "="%char S1 = true ->
  free ","%char S2 = true ->
  ParseOption ("secretkey=" ++ S1 ++ "=" ++ S2)
  = Ret {| URL := ""; ExternalURL := ""; Region := ""; AccessKey := "";
           SecretKey := S1; Token := "" |}.
Proof.
  intros H1 H2. apply andb_prop in H1. destruct H1 as [Ha Hb].
  unfold ParseOption.
  rewrite splitOn_free
    by (rewrite !free_app, Ha, H2; reflexivity).
  cbn [parseEntries].
  change ("secretkey=" ++ S1 ++ "=" ++ S2)
    with ("secretkey" ++ String "="%char (S1 ++ String "="%char S2)).
  rewrite splitOn_app by reflexivity.
  rewrite splitOn_app by assumption.
  destruct (splitOn_cons "="%char S2) as [h [t E]]. rewrite E. reflexivity.
Qed.

Lemma ParseOption_cuts_value_witness :
  ParseOption "secretkey=c2VjcmV0MQ=="
  = Ret {| URL := ""; ExternalURL := ""; Region := ""; AccessKey := "";
           SecretKey := "c2VjcmV0MQ"; Token := "" |}.
Proof.
  apply (ParseOption_cuts_value "c2VjcmV0MQ" "="); reflexivity.
Defined.

(** X14. [ParseOption] panics exactly when one of the comma-separated
    entries is [url], [accesskey] or [secretkey] with no [=] after it;
    on every other argument string, unknown and empty entries included, it
    returns. *)
Theorem ParseOption_panics_iff (args : string) :
  (exists msg, ParseOption args = Panic msg) <->
  existsb bareKey (splitOn ","%char args) = true.
Proof.
  unfold ParseOption. generalize zeroOption.
  induction (splitOn ","%char args) as [|e rest IH]; intros o.
  - simpl. split; [intros [msg H]; discriminate | discriminate].
  - cbn [parseEntries existsb].
    destruct (splitOn "="%char e) as [|p0 t] eqn:E.
    { destruct (splitOn_cons "="%char e) as [h [t' E']]. congruence. }
    destruct t as [|p1 t].
    + (* no [=] in the entry: it is [p0] *)
      apply splitOn_single in E. subst p0. unfold bareKey at 1. cbn [second].
      destruct (e =? "url"); [split; [reflexivity | now eexists]|].
      destruct (e =? "accesskey"); [split; [reflexivity | now eexists]|].
      destruct (e =? "secretkey"); [split; [reflexivity | now eexists]|].
      cbn [orb]. apply IH.
    + (* the entry has a [=]: it is no bare key *)
      assert (N : bareKey e = false).
      { unfold bareKey.
        destruct (String.eqb_spec e "url") as [->|]; [discriminate|].
        destruct (String.eqb_spec e "accesskey") as [->|]; [discriminate|].
        destruct (String.eqb_spec e "secretkey") as [->|]; [discriminate|].
        reflexivity. }
      rewrite N. cbn [orb second].
      destruct (p0 =? "url"); [apply IH|].
      destruct (p0 =? "accesskey"); [apply IH|].
      destruct (p0 =? "secretkey"); apply IH.
Qed.

Lemma ParseOption_panics_iff_witness :
  exists msg, ParseOption "url=http://s3:8000,accesskey" = Panic msg.
Proof.
  apply (ParseOption_panics_iff "url=http://s3:8000,accesskey"). reflexivity.
Defined.

End OptionsFacts.

(** ** The file node *)
Module S3FileFacts.
Import GoInt Node S3File.
Open Scope Z_scope.

Lemma firstn_plus {A} (n m : nat) (l : list A) :
  firstn (n + m) l = (firstn n l ++ firstn m (skipn n l))%list.
Proof.
  revert l. induction n as [|n IH]; intros l; [reflexivity|].
  destruct l as [|x l]; simpl; [now rewrite firstn_nil | now rewrite IH].
Qed.

Lemma skipn_plus {A} (n m : nat) (l : list A) :
  skipn (n + m) l = skipn m (skipn n l).
Proof.
  revert l. induction n as [|n IH]; intros l; [reflexivity|].
  destruct l as [|x l]; simpl; [now rewrite skipn_nil | apply IH].
Qed.

(** A read inside the data. *)
Lemma Read_in_bounds (zf : s3File) (d : list Byte.byte) (lenDest off : Z) :
  data zf = Some d ->
  0 <= off <= Z.of_nat (List.length d) -> 0 <= lenDest -> off + lenDest < 2 ^ 63 ->
  Read zf lenDest off = Ret (firstn (Z.to_nat lenDest) (skipn (Z.to_nat off) d)).
Proof.
  intros Hd Ho Hn Hs. unfold Read, len. rewrite Hd.
  rewrite (GoIntFacts.int_id off) by (unfold in_int64; lia).
  rewrite (GoIntFacts.int_id (off + lenDest)) by (unfold in_int64; lia).
  unfold slice.
  destruct (Z.gtb_spec (off + lenDest) (Z.of_nat (List.length d))) as [Hg | Hg].
  - replace ((0 <=? off) && (off <=? Z.of_nat (List.length d))
             && (Z.of_nat (List.length d) <=? Z.of_nat (List.length d))) with true
      by (symmetry; rewrite !andb_true_iff, !Z.leb_le; lia).
    f_equal. rewrite !firstn_all2; [reflexivity | |]; rewrite length_skipn; lia.
  - replace ((0 <=? off) && (off <=? off + lenDest)
             && (off + lenDest <=? Z.of_nat (List.length d))) with true
      by (symmetry; rewrite !andb_true_iff, !Z.leb_le; lia).
    do 2 f_equal. lia.
Qed.

(** X15. After a successful [Open] the node serves the unpacked content: a
    [Read] at an offset inside the content returns the bytes from the
    offset on, at most [len(dest)] of them and never past the end (so the
    empty slice at the end), and two reads that follow each other return
    together what one read of the joint length returns. *)
Theorem Open_then_Read (zf : s3File) (c : list Byte.byte) (n m off : Z) :
  data zf = None -> unpack (file zf) = Content c ->
  0 <= off -> 0 <= n -> 0 <= m -> off + n <= Z.of_nat (List.length c) ->
  off + n + m < 2 ^ 63 ->
  let zf' := fst (Open zf) in
  snd (Open zf) = (FOPEN_KEEP_CACHE, 0) /\
  Open zf' = (zf', (FOPEN_KEEP_CACHE, 0)) /\
  Read zf' n off = Ret (firstn (Z.to_nat n) (skipn (Z.to_nat off) c)) /\
  Read zf' m (off + n) = Ret (firstn (Z.to_nat m) (skipn (Z.to_nat (off + n)) c)) /\
  Read zf' (n + m) off
  = Ret (firstn (Z.to_nat n) (skipn (Z.to_nat off) c)
         ++ firstn (Z.to_nat m) (skipn (Z.to_nat (off + n)) c))%list.
Proof.
  intros Hd Hu Ho Hn Hm Hb Hs zf'.
  assert (E : Open zf = ({| file := file zf; data := Some c |}, (FOPEN_KEEP_CACHE, 0))).
  { unfold Open. now rewrite Hd, Hu. }
  subst zf'. rewrite E. cbn [fst snd].
  split; [reflexivity|]. split; [reflexivity|].
  rewrite !(Read_in_bounds _ c) by (try reflexivity; lia).
  split; [reflexivity|]. split; [reflexivity|].
  f_equal. rewrite !Z2Nat.inj_add by lia. now rewrite firstn_plus, skipn_plus.
Qed.

Lemma Open_then_Read_witness :
  Read (fst (Open {| file := {| zip_Mode := 420; zip_ModTimeUnix := 0;
                                UncompressedSize64 := 3;
                                unpack := Content [Byte.x61; Byte.x62; Byte.x63] |};
                     data := None |})) 5 1
  = Ret [Byte.x62; Byte.x63].
Proof.
  refine (proj1 (proj2 (proj2
    (Open_then_Read
       {| file := {| zip_Mode := 420; zip_ModTimeUnix := 0; UncompressedSize64 := 3;
                     unpack := Content [Byte.x61; Byte.x62; Byte.x63] |};
          data := None |}
       [Byte.x61; Byte.x62; Byte.x63] 2 0 1 _ _ _ _ _ _ _))));
    try reflexivity; simpl; lia.
Defined.

(** X16. A [Read] at an offset past the end of the data, or at a negative
    offset, panics on the slice expression instead of returning an empty
    result or an errno; this includes every read at an offset above zero on
    a node that was not opened. *)
Theorem Read_outside_panics (zf : s3File) (lenDest off : Z) :
  off < 0 \/ len zf < off ->
  Read zf lenDest off = Panic "slice bounds out of range".
Proof.
  intros H. unfold Read, slice.
  set (e := int (int off + lenDest)).
  set (d := match data zf with Some d => d | None => [] end).
  assert (L : len zf = Z.of_nat (List.length d)).
  { unfold len, d. now destruct (data zf). }
  assert (E : (if e >? len zf then len zf else e) <= len zf)
    by (destruct (Z.gtb_spec e (len zf)); lia).
  destruct (Z.leb_spec 0 off); [|reflexivity].
  destruct (Z.leb_spec off (if e >? len zf then len zf else e)); [lia | reflexivity].
Qed.

Lemma Read_outside_panics_witness :
  Read {| file := {| zip_Mode := 420; zip_ModTimeUnix := 0; UncompressedSize64 := 3;
                     unpack := Content [Byte.x61; Byte.x62; Byte.x63] |};
          data := Some [Byte.x61; Byte.x62; Byte.x63] |} 4096 4
  = Panic "slice bounds out of range".
Proof.
  apply Read_outside_panics. right. reflexivity.
Defined.

(** X17. [Getattr] reports, for a size that leaves room for the rounding
    (at most 2^64 - 512), the number of 512-byte blocks that just covers the
    size; the mode keeps the low twelve bits only, the three times are
    equal and the link count is 1. *)
Theorem Getattr_blocks (zf : s3File) :
  0 <= UncompressedSize64 (file zf) <= 2 ^ 64 - 512 ->
  let a := fst (Getattr zf) in
  Size a = UncompressedSize64 (file zf) /\
  512 * (Blocks a - 1) < Size a <= 512 * Blocks a /\
  0 <= Mode a < 4096 /\
  Atime a = Mtime a /\ Ctime a = Mtime a /\ Nlink a = 1 /\ Blksize a = 512 /\
  snd (Getattr zf) = 0.
Proof.
  intros H a. subst a. unfold Getattr. cbn [fst snd Size Blocks Mode Atime Ctime Mtime
                                            Nlink Blksize].
  set (size := UncompressedSize64 (file zf)) in *.
  split; [reflexivity|]. split; [|split; [|repeat split]].
  - unfold uint64. rewrite Zminus_mod_idemp_l.
    rewrite (Z.mod_small (size + 512 - 1)) by lia.
    pose proof (Z.div_mod (size + 512 - 1) 512 ltac:(lia)) as D.
    pose proof (Z.mod_pos_bound (size + 512 - 1) 512 ltac:(lia)) as M.
    assert (0 <= (size + 512 - 1) / 512 < 2 ^ 64).
    { split; [apply Z.div_pos; lia|]. apply Z.div_lt_upper_bound; lia. }
    rewrite (Z.mod_small ((size + 512 - 1) / 512)) by lia. lia.
  - change 4095 with (Z.ones 12). rewrite Z.land_ones by lia.
    apply Z.mod_pos_bound. lia.
Qed.

Lemma Getattr_blocks_witness :
  let a := fst (Getattr {| file := {| zip_Mode := 420; zip_ModTimeUnix := 0;
                                      UncompressedSize64 := 513;
                                      unpack := OpenFails |};
                           data := None |}) in
  Size a = 513 /\
  512 * (Blocks a - 1) < Size a <= 512 * Blocks a /\
  0 <= Mode a < 4096 /\
  Atime a = Mtime a /\ Ctime a = Mtime a /\ Nlink a = 1 /\ Blksize a = 512 /\
  0 = 0.
Proof.
  apply (Getattr_blocks
           {| file := {| zip_Mode := 420; zip_ModTimeUnix := 0;
                         UncompressedSize64 := 513; unpack := OpenFails |};
              data := None |}).
  simpl. lia.
Defined.

End S3FileFacts.

(** ** The bucket policy *)
Module PolicyFacts.
Import Node Policy.
Open Scope string_scope.
Open Scope list_scope.

(** The loop of [RemoveShare]: [F] is what was kept so far, [J] the part of
    the array between the write and the read position, [rest] what is
    still to be read. *)
Lemma removeLoop_spec (user : string) (rest : list string) : forall F J,
  exists arr,
    removeLoop (List.length rest) (List.length F + List.length J) user
      (F ++ J ++ rest) (List.length F)
    = Some (arr, List.length (F ++ filter (kept user) rest)) /\
    firstn (List.length (F ++ filter (kept user) rest)) arr
    = F ++ filter (kept user) rest.
Proof.
  induction rest as [|i rest IH]; intros F J.
  - simpl. rewrite !app_nil_r. eexists. split; [reflexivity|].
    now rewrite firstn_app, firstn_all, Nat.sub_diag, firstn_O, app_nil_r.
  - cbn [removeLoop List.length filter].
    replace (F ++ J ++ i :: rest) with ((F ++ J) ++ i :: rest)
      by (now rewrite <- app_assoc).
    rewrite <- length_app, ClientMoreFacts.nth_error_middle.
    fold (kept user i). destruct (kept user i).
    + assert (EL : (F ++ [i]) ++ filter (kept user) rest
                   = F ++ i :: filter (kept user) rest)
        by (now rewrite <- app_assoc).
      assert (EI : List.length (F ++ [i]) = S (List.length F))
        by (rewrite length_app; simpl; lia).
      destruct J as [|j J].
      * rewrite app_nil_r, ClientMoreFacts.store_middle.
        destruct (IH (F ++ [i]) []) as [arr [H1 H2]].
        rewrite EL in H1, H2. rewrite EI in H1. cbn [List.length] in H1.
        rewrite Nat.add_0_r in H1.
        replace ((F ++ [i]) ++ [] ++ rest) with (F ++ i :: rest) in H1
          by (now rewrite <- app_assoc).
        exists arr. split; [exact H1 | exact H2].
      * replace ((F ++ j :: J) ++ i :: rest) with (F ++ j :: (J ++ i :: rest))
          by (now rewrite <- app_assoc).
        rewrite ClientMoreFacts.store_middle.
        destruct (IH (F ++ [i]) (J ++ [i])) as [arr [H1 H2]].
        rewrite EL in H1, H2. rewrite EI in H1.
        replace (S (List.length F) + List.length (J ++ [i]))%nat
          with (S (List.length (F ++ j :: J))) in H1
          by (rewrite !length_app; simpl; lia).
        replace ((F ++ [i]) ++ (J ++ [i]) ++ rest) with (F ++ i :: J ++ i :: rest) in H1
          by (now rewrite <- !app_assoc).
        exists arr. split; [exact H1 | exact H2].
    + destruct (IH F (J ++ [i])) as [arr [H1 H2]].
      replace (List.length F + List.length (J ++ [i]))%nat
        with (S (List.length (F ++ J))) in H1
        by (rewrite !length_app; simpl; lia).
      replace (F ++ (J ++ [i]) ++ rest) with ((F ++ J) ++ i :: rest) in H1
        by (now rewrite <- !app_assoc).
      exists arr. split; [exact H1 | exact H2].
Qed.

Lemma RemoveShare_spec (p : BucketPolicy) (user : string) :
  RemoveShare p user = Ret (set_shares p (filter (kept user) (shares p))).
Proof.
  unfold RemoveShare.
  destruct (removeLoop_spec user (shares p) [] []) as [arr [H1 H2]].
  cbn [app List.length Nat.add] in H1, H2. rewrite H1. now rewrite H2.
Qed.

Lemma filter_kept_absent (user : string) (l : list string) :
  ~ In user l -> filter (kept user) l = l.
Proof.
  induction l as [|x l IH]; [reflexivity|]. intros H. simpl.
  unfold kept at 1. destruct (String.eqb_spec x user) as [->|_].
  - elim H. now left.
  - simpl. rewrite IH; [reflexivity|]. intros N. apply H. now right.
Qed.

(** X18. [RemoveShare] never panics; it removes every occurrence of the
    user from the share list and keeps the other users in their order, and
    nothing else of the policy changes.  On a policy that did not share
    with the user, [AddShare] followed by [RemoveShare] gives the policy
    back. *)
Theorem RemoveShare_filters (p : BucketPolicy) (user : string) :
  (exists p',
     RemoveShare p user = Ret p' /\
     shares p' = filter (fun i => negb (i =? user)) (shares p) /\
     ~ In user (shares p') /\
     bucket p' = bucket p /\ owner p' = owner p /\ dirs p' = dirs p) /\
  (~ In user (shares p) -> RemoveShare (AddShare p user) user = Ret p).
Proof.
  split.
  - eexists. split; [apply RemoveShare_spec|]. cbn [shares set_shares bucket owner dirs].
    split; [reflexivity|]. split; [|repeat split].
    intros H. apply filter_In in H. destruct H as [_ H]. unfold kept in H.
    now rewrite String.eqb_refl in H.
  - intros H. rewrite RemoveShare_spec. unfold AddShare, set_shares.
    cbn [shares bucket owner dirs]. rewrite filter_app, (filter_kept_absent _ _ H).
    simpl. unfold kept. rewrite String.eqb_refl. simpl. rewrite app_nil_r.
    now destruct p.
Qed.

Lemma RemoveShare_filters_witness :
  RemoveShare (AddShare (generated "b" "o" ["u1"; "u2"]) "u3") "u3"
  = Ret (generated "b" "o" ["u1"; "u2"]).
Proof.
  apply (RemoveShare_filters (generated "b" "o" ["u1"; "u2"]) "u3").
  simpl. intros [H | [H | H]]; [discriminate | discriminate | exact H].
Defined.

Lemma fold_AddShare (us : list string) : forall p,
  fold_left AddShare us p = set_shares p (shares p ++ us).
Proof.
  induction us as [|u us IH]; intros p.
  - simpl. rewrite app_nil_r. now destruct p.
  - simpl. rewrite IH. unfold AddShare, set_shares. cbn [shares bucket owner dirs].
    now rewrite <- app_assoc.
Qed.

(** X19. The document [GenerateBucketPolicy] renders: the owner always
    gets the two read-write statements on the bucket and on its objects;
    the users shared with, in the order given, get two read-only statements
    exactly when there is at least one of them; there is no statement for
    a directory. *)
Theorem generated_statements (b o : string) (to_users : list string) :
  shares (generated b o to_users) = to_users /\
  statements (generated b o to_users) =
  [ {| Effect := "Allow"; Principal := [userArn o]; Action := rwDirActionSet;
       Resource := [("arn:aws:s3:::" ++ b)%string] |};
    {| Effect := "Allow"; Principal := [userArn o]; Action := rwObjActionSet;
       Resource := [("arn:aws:s3:::" ++ b ++ "/*")%string] |} ]
  ++ match to_users with
     | [] => []
     | _ :: _ =>
         [ {| Effect := "Allow"; Principal := map userArn to_users;
              Action := roDirActionSet;
              Resource := [("arn:aws:s3:::" ++ b)%string] |};
           {| Effect := "Allow"; Principal := map userArn to_users;
              Action := roObjActionSet;
              Resource := [("arn:aws:s3:::" ++ b ++ "/*")%string] |} ]
     end.
Proof.
  unfold generated. rewrite fold_AddShare.
  unfold statements, bucketStatements, dirsStatements, NewBucketPolicy, set_shares.
  cbn [shares bucket owner dirs app flat_map]. split; [reflexivity|].
  rewrite app_nil_r. now destruct to_users.
Qed.

Lemma edits_keep_dirs (edits : list edit) : forall p,
  dirs p = None ->
  exists p', fold_left apply edits (Ret p) = Ret p' /\ dirs p' = None.
Proof.
  induction edits as [|e edits IH]; intros p H; [now exists p|].
  cbn [fold_left apply]. destruct e as [u | u | d u].
  - apply IH. exact H.
  - rewrite RemoveShare_spec. apply IH. exact H.
  - apply IH. unfold RemoveOwnDir. now rewrite H.
Qed.

(** X20. No method initialises the map of directories: on a policy made by
    [NewBucketPolicy], and after any sequence of [AddShare], [RemoveShare]
    and [RemoveOwnDir] on it (which all return), [AddOwnDir] panics with an
    assignment to an entry in a nil map, for every directory and user, and
    the document has no statement for a directory. *)
Theorem AddOwnDir_panics (b o : string) (edits : list edit) :
  exists p,
    fold_left apply edits (Ret (NewBucketPolicy b o)) = Ret p /\
    (forall dir user, AddOwnDir p dir user = Panic "assignment to entry in nil map") /\
    dirsStatements p = [].
Proof.
  destruct (edits_keep_dirs edits (NewBucketPolicy b o) eq_refl) as [p [H D]].
  exists p. split; [exact H|]. split.
  - intros dir user. unfold AddOwnDir. now rewrite D.
  - unfold dirsStatements. now rewrite D.
Qed.

End PolicyFacts.

(** ** More of the accounted reader *)
Module NodeMoreFacts.
Import GoInt Node NodeMore.
Open Scope Z_scope.

Lemma skipn_app_length {A} (F t : list A) (d : nat) :
  skipn (List.length F + d) (F ++ t) = skipn d t.
Proof.
  induction F as [|x F IH]; [reflexivity|]. exact IH.
Qed.

Lemma firstn_app_length {A} (F t : list A) (d : nat) :
  firstn (List.length F + d) (F ++ t) = (F ++ firstn d t)%list.
Proof.
  induction F as [|x F IH]; [reflexivity|]. simpl. now rewrite IH.
Qed.

(** The two appends on the array of [name]: the ellipsis does not reach
    the suffix, and the move puts the suffix right behind it. *)
Lemma shorten_split (F t : list Z) (x : Z) (S : nat) :
  (S + 1 <= List.length t)%nat ->
  ClientMore.store (F ++ x :: t) (List.length F) ellipsis
  = Some (F ++ ellipsis :: t)%list /\
  firstn (List.length F + 1 + S)
    (moveWithin (F ++ ellipsis :: t) (List.length F + 1)
       (List.length (F ++ x :: t) - S) S)
  = (F ++ [ellipsis] ++ skipn (List.length (F ++ x :: t) - S) (F ++ x :: t))%list.
Proof.
  intros Ht. split; [apply ClientMoreFacts.store_middle|].
  set (d := (List.length t - S)%nat).
  set (n := (List.length (F ++ x :: t) - S)%nat).
  assert (En : forall y, n = (List.length (F ++ [y]) + d)%nat).
  { intros y. subst n d. rewrite !length_app. simpl. lia. }
  assert (Ea : forall y, (F ++ y :: t = (F ++ [y]) ++ t)%list)
    by (intros y; now rewrite <- app_assoc).
  assert (L3 : List.length (skipn d t) = S) by (rewrite length_skipn; lia).
  assert (S1 : skipn n (F ++ x :: t) = skipn d t)
    by (rewrite (Ea x), (En x); apply skipn_app_length).
  assert (S2 : skipn n (F ++ ellipsis :: t) = skipn d t)
    by (rewrite (Ea ellipsis), (En ellipsis); apply skipn_app_length).
  assert (F1 : firstn (List.length F + 1) (F ++ ellipsis :: t) = (F ++ [ellipsis])%list).
  { rewrite (Ea ellipsis).
    replace (List.length F + 1)%nat with (List.length (F ++ [ellipsis]) + 0)%nat
      by (rewrite length_app; simpl; lia).
    now rewrite firstn_app_length, firstn_O, app_nil_r. }
  unfold moveWithin. rewrite S1, S2, F1.
  rewrite (firstn_all2 (n := S) (skipn d t)) by lia.
  replace (List.length F + 1 + S)%nat with (List.length (F ++ [ellipsis]) + S)%nat
    by (rewrite length_app; simpl; lia).
  rewrite firstn_app_length.
  rewrite firstn_app, L3, Nat.sub_diag, firstn_O, app_nil_r.
  rewrite firstn_all2 by lia. now rewrite <- app_assoc.
Qed.

Lemma shorten_array (l : list Z) (P S : nat) :
  (P + S + 2 <= List.length l)%nat ->
  exists arr,
    ClientMore.store l P ellipsis = Some arr /\
    firstn (P + 1 + S) (moveWithin arr (P + 1) (List.length l - S) S)
    = (firstn P l ++ [ellipsis] ++ skipn (List.length l - S) l)%list.
Proof.
  intros H.
  assert (HF : List.length (firstn P l) = P) by (rewrite length_firstn; lia).
  pose proof (firstn_skipn P l) as El.
  pose proof (length_skipn P l) as Ls.
  destruct (skipn P l) as [|x t]; [simpl in Ls; lia|].
  remember (firstn P l) as F eqn:EF. clear EF. subst l P.
  simpl in Ls. destruct (shorten_split F t x S) as [E1 E2]; [lia|].
  exists (F ++ ellipsis :: t)%list. split; [exact E1 | exact E2].
Qed.

(** X21. [shortenName] leaves a name of at most [size] runes, and every
    name when [size] is not positive, as it is; a longer name becomes
    exactly [size] runes: its first [size - 1 - (size-1)/2] runes, the
    ellipsis, and its last [(size-1)/2] runes.  Writing the ellipsis into
    the array of the name does not touch the suffix that is copied. *)
Theorem shortenName_spec (name : list Z) (size : Z) :
  in_int64 size -> in_int64 (Z.of_nat (List.length name)) ->
  ((size <= 0 \/ Z.of_nat (List.length name) <= size) ->
   shortenName name size = Some name) /\
  (0 < size < Z.of_nat (List.length name) ->
   let s := (size - 1) / 2 in
   let p := size - 1 - s in
   exists short,
     shortenName name size = Some short /\
     short = (firstn (Z.to_nat p) name ++ [ellipsis]
              ++ skipn (List.length name - Z.to_nat s) name)%list /\
     Z.of_nat (List.length short) = size).
Proof.
  intros Hr Hlen. unfold in_int64 in Hr, Hlen. split.
  - intros H. unfold shortenName.
    destruct (Z.leb_spec size 0); [reflexivity|].
    destruct (Z.leb_spec (Z.of_nat (List.length name)) size); [reflexivity | lia].
  - intros H s p. unfold shortenName.
    destruct (Z.leb_spec size 0); [lia|].
    destruct (Z.leb_spec (Z.of_nat (List.length name)) size); [lia|].
    cbv zeta.
    assert (Hs : 0 <= s <= size - 1).
    { subst s. split; [apply Z.div_pos; lia|].
      apply Z.div_le_upper_bound; lia. }
    rewrite (GoIntFacts.int_id (size - 1)) by (unfold in_int64; lia).
    rewrite Z.quot_div_nonneg by lia. fold s.
    rewrite (GoIntFacts.int_id s) by (unfold in_int64; lia).
    fold p.
    rewrite (GoIntFacts.int_id p) by (unfold in_int64; subst p; lia).
    rewrite (GoIntFacts.int_id (Z.of_nat (List.length name) - s))
      by (unfold in_int64; lia).
    replace (Z.to_nat (Z.of_nat (List.length name) - s))
      with (List.length name - Z.to_nat s)%nat by lia.
    destruct (shorten_array name (Z.to_nat p) (Z.to_nat s)) as [arr [E1 E2]];
      [subst p; lia|].
    rewrite E1. eexists. split; [reflexivity|]. split; [exact E2|].
    rewrite E2, !length_app, length_firstn, length_skipn. simpl. subst p. lia.
Qed.

Lemma shortenName_spec_witness :
  shortenName [97; 98; 99; 100; 101; 102; 103; 104] 5
  = Some [97; 98; ellipsis; 103; 104].
Proof.
  destruct (shortenName_spec [97; 98; 99; 100; 101; 102; 103; 104] 5) as [_ H];
    [unfold in_int64; lia | unfold in_int64; simpl; lia |].
  destruct H as [short [E1 [E2 _]]]; [simpl; lia|].
  rewrite E1, E2. reflexivity.
Defined.

Section WithAsyncIO.
Context (A : AsyncIO).

(** X22. [UpdateReader] reopens the handle: whatever the state of the
    handle was (closed or not, buffered or not), afterwards it is not
    closed, reads under the new context from the new stream or from an
    async reader made over it, and the next [Close] closes that reader;
    the buffering mark is as before. *)
Theorem UpdateReader_reopens (c : Z) (sno : S3Node A) (ctx' : Context) (in' : ref A)
  (w : W A) :
  let sno' := fst (UpdateReader A c sno ctx' in' w) in
  let w' := snd (UpdateReader A c sno ctx' in' w) in
  closed sno' = false /\ ctx sno' = ctx' /\ origIn A sno' = in' /\
  withBuf A sno' = withBuf A sno /\
  close sno' = Some (in_ sno') /\
  (in_ sno' = in' \/
   withBuf A sno = true /\
   exists buffers w0, fst (async_New A ctx' in' buffers w0) = inl (in_ sno')) /\
  Close sno' w' =
  (let '(err, w'') := io_Close A (in_ sno') w' in ((err, set_closed sno' true), w'')).
Proof.
  unfold UpdateReader. destruct (withBuf A sno) eqn:Hb.
  - unfold WithBuffer. cbn [withBuf set_withBuf size ctx origIn].
    match goal with |- context [if ?b >? 0 then _ else _] => destruct (b >? 0) end.
    + match goal with |- context [async_New A ?x ?y ?z ?v] =>
        destruct (async_New A x y z v) as [[rc | err] w1] eqn:En end.
      * cbn. repeat split. right. split; [reflexivity|].
        eexists. eexists. rewrite En. reflexivity.
      * cbn. repeat split. now left.
    + cbn. repeat split. now left.
  - cbn. rewrite Hb. repeat split. now left.
Qed.

(** X23. [WithBuffer] adds a buffer at most once: after a call the handle
    is marked as buffered, and a further call changes neither the handle
    nor the streams.  For an object of known size smaller than one buffer
    of the async reader no async reader is made, whatever buffer size is
    configured. *)
Theorem WithBuffer_once (c : Z) (sno : S3Node A) (w : W A) :
  let r := WithBuffer A c sno w in
  withBuf A (fst r) = true /\
  WithBuffer A c (fst r) (snd r) = r /\
  (in_int64 c -> withBuf A sno = false ->
   0 <= size A sno < async_BufferSize A ->
   r = (set_withBuf A sno true, w)).
Proof.
  cbv zeta.
  assert (M : withBuf A (fst (WithBuffer A c sno w)) = true).
  { unfold WithBuffer. destruct (withBuf A sno) eqn:Hb; [exact Hb|].
    match goal with |- context [if ?b >? 0 then _ else _] => destruct (b >? 0) end;
      [|reflexivity].
    match goal with |- context [async_New A ?x ?y ?z ?v] =>
      destruct (async_New A x y z v) as [[rc | err] w1] end; reflexivity. }
  split; [exact M|]. split.
  - destruct (WithBuffer A c sno w) as [sno1 w1]. simpl in M |- *.
    unfold WithBuffer. now rewrite M.
  - intros Hc Hb Hs. unfold WithBuffer. rewrite Hb.
    cbn [size set_withBuf].
    rewrite (GoIntFacts.int64_id c) by exact Hc.
    assert (B : forall q, (int q >? 0) = false ->
                (if int q >? 0
                 then match async_New A (ctx (set_withBuf A sno true))
                              (origIn A (set_withBuf A sno true)) (int q) w with
                      | (inl rc, w') => (set_in_close A (set_withBuf A sno true) rc, w')
                      | (inr _, w') => (set_withBuf A sno true, w')
                      end
                 else (set_withBuf A sno true, w)) = (set_withBuf A sno true, w)).
    { intros q Hq. now rewrite Hq. }
    unfold in_int64 in Hc.
    destruct ((size A sno >=? c) || (size A sno =? -1)) eqn:Hcase.
    + apply B. apply orb_prop in Hcase. destruct Hcase as [Hge | Heq].
      * apply Z.geb_le in Hge.
        destruct (Z.le_gt_cases 0 c) as [Hc0 | Hc0].
        -- rewrite Z.quot_small by lia. reflexivity.
        -- assert (Z.quot c (async_BufferSize A) <= 0).
           { apply Z.quot_le_upper_bound; lia. }
           assert (- 2 ^ 63 <= Z.quot c (async_BufferSize A)).
           { rewrite <- (Z.opp_involutive c), Z.quot_opp_l by lia.
             assert (Z.quot (- c) (async_BufferSize A) <= - c)
               by (apply Z.quot_le_upper_bound; nia).
             lia. }
           rewrite GoIntFacts.int_id by (unfold in_int64; lia).
           rewrite Z.gtb_ltb. apply Z.ltb_ge. assumption.
      * apply Z.eqb_eq in Heq. lia.
    + apply B. rewrite Z.quot_small by lia. reflexivity.
Qed.

End WithAsyncIO.

Lemma WithBuffer_once_witness :
  WithBuffer nopAsync 16777216 nopNode 0%nat = (set_withBuf nopAsync nopNode true, 0%nat).
Proof.
  destruct (WithBuffer_once nopAsync 16777216 nopNode 0%nat) as [_ [_ H]].
  apply H; [unfold in_int64; lia | reflexivity | simpl; lia].
Defined.

End NodeMoreFacts.

(** ** The modify window *)
Module FsFacts.
Import Fs.
Open Scope Z_scope.

(** X24. [GetModifyWindow]: as soon as one of the file systems reports
    that it keeps no modification times, the result is
    [ModTimeNotSupported], whatever the configured window and the other
    precisions are; otherwise the result is the largest of the configured
    window and the precisions, nil entries being skipped. *)
Theorem GetModifyWindow_max (configured : Z) (fss : list (option Z)) :
  (In (Some ModTimeNotSupported) fss ->
   GetModifyWindow configured fss = ModTimeNotSupported) /\
  (~ In (Some ModTimeNotSupported) fss ->
   let r := GetModifyWindow configured fss in
   configured <= r /\
   (forall p, In (Some p) fss -> p <= r) /\
   (r = configured \/ In (Some r) fss)).
Proof.
  unfold GetModifyWindow. revert configured.
  induction fss as [|[p|] fss IH]; intros window.
  - split; [intros []|]. intros _. simpl. repeat split; [lia | intros p [] | now left].
  - cbn [modifyWindowLoop]. destruct (Z.eqb_spec p ModTimeNotSupported) as [->|Hp].
    + split; [reflexivity|]. intros N. elim N. now left.
    + assert (Hin : forall q, In (Some q) (Some p :: fss) <-> q = p \/ In (Some q) fss).
      { intros q. simpl. split; intros [H | H]; auto; [inversion H; auto | subst; auto]. }
      destruct (Z.gtb_spec p window) as [Hg | Hg].
      * destruct (IH p) as [IH1 IH2]. split.
        -- intros H. apply Hin in H. destruct H as [H | H]; [congruence | auto].
        -- intros N. destruct IH2 as [I1 [I2 I3]].
           { intros H. apply N. now right. }
           cbv zeta. split; [lia|]. split.
           ++ intros q H. apply Hin in H. destruct H as [-> | H]; [exact I1 | auto].
           ++ right. apply Hin. destruct I3 as [I3 | I3]; [left; exact I3 | now right].
      * destruct (IH window) as [IH1 IH2]. split.
        -- intros H. apply Hin in H. destruct H as [H | H]; [congruence | auto].
        -- intros N. destruct IH2 as [I1 [I2 I3]].
           { intros H. apply N. now right. }
           cbv zeta. split; [exact I1|]. split.
           ++ intros q H. apply Hin in H. destruct H as [-> | H]; [lia | auto].
           ++ destruct I3 as [I3 | I3]; [now left | right; now right].
  - cbn [modifyWindowLoop]. destruct (IH window) as [IH1 IH2]. split.
    + intros [H | H]; [discriminate | auto].
    + intros N. destruct IH2 as [I1 [I2 I3]].
      { intros H. apply N. now right. }
      cbv zeta. split; [exact I1|]. split.
      * intros q [H | H]; [discriminate | auto].
      * destruct I3 as [I3 | I3]; [now left | right; now right].
Qed.

Lemma GetModifyWindow_max_witness :
  GetModifyWindow 1 [Some 1000; None; Some ModTimeNotSupported; Some 5]
  = ModTimeNotSupported.
Proof.
  apply (GetModifyWindow_max 1 [Some 1000; None; Some ModTimeNotSupported; Some 5]).
  simpl. right. right. left. reflexivity.
Defined.

End FsFacts.

(** ** The configuration dialogue *)
Module ConfigUIFacts.
Import GoInt Client ConfigUI.
Open Scope string_scope.
Open Scope list_scope.

(** X25. [ChooseNumber] skips every line that is no number or lies outside
    the range and returns the first number within [min, max], leaving the
    lines after it unread; it never returns a number outside the range,
    and when the range is empty it never returns. *)
Theorem ChooseNumber_first_in_range (min max : Z) :
  (forall skipped line rest i,
     forallb (badNumber min max) skipped = true ->
     Atoi line = Some i -> (min <= i <= max)%Z ->
     ChooseNumber min max (skipped ++ line :: rest) = (Returns i, rest)) /\
  (forall input i rest,
     ChooseNumber min max input = (Returns i, rest) -> (min <= i <= max)%Z) /\
  ((max < min)%Z -> forall input, ChooseNumber min max input = (Exits, [])).
Proof.
  assert (R : forall input i rest,
             ChooseNumber min max input = (Returns i, rest) -> (min <= i <= max)%Z).
  { induction input as [|l input IH]; intros i rest; cbn [ChooseNumber];
      [discriminate|].
    destruct (Atoi l) as [j|]; [|apply IH].
    destruct (Z.ltb_spec j min); cbn [orb]; [apply IH|].
    destruct (Z.gtb_spec j max); [apply IH|].
    intros E. inversion E; subst. lia. }
  split; [|split; [exact R|]].
  - intros skipped line rest i Hs Ha Hr.
    induction skipped as [|l skipped IH]; cbn [app ChooseNumber].
    + rewrite Ha. destruct (Z.ltb_spec i min); [lia|].
      destruct (Z.gtb_spec i max); [lia | reflexivity].
    + cbn [forallb] in Hs. apply andb_prop in Hs. destruct Hs as [Hl Hs].
      unfold badNumber in Hl. destruct (Atoi l) as [j|]; [|now apply IH].
      rewrite Hl. now apply IH.
  - intros Hm input. induction input as [|l input IH]; cbn [ChooseNumber];
      [reflexivity|].
    destruct (Atoi l) as [j|]; [|exact IH].
    destruct (Z.ltb_spec j min); cbn [orb]; [exact IH|].
    destruct (Z.gtb_spec j max); [exact IH | lia].
Qed.

Lemma ChooseNumber_first_in_range_witness :
  ChooseNumber 1 3 (["x"; "7"; ""] ++ "+2" :: ["3"]) = (Returns 2%Z, ["3"]).
Proof.
  destruct (ChooseNumber_first_in_range 1 3) as [H _].
  apply H; [reflexivity | reflexivity | lia].
Defined.

(** X26. What [Choose] can return: one of the choices, the empty string
    when no value is required, the non-empty default when a value is
    required and the line was empty, or, when new values are allowed, a
    non-empty line that is no number.  A line that is a number always
    means a position: within 1..len(choices) it selects that choice, even
    when the same text is itself among the choices, and outside it is
    turned down, even when new values are allowed. *)
Theorem Choose_answers (choices : list string) (defaultValue : string)
  (required newOk : bool) :
  (forall input v rest,
     Choose choices defaultValue required newOk input = (Returns v, rest) ->
     In v choices \/
     (v = "" /\ required = false) \/
     (v = defaultValue /\ v <> "" /\ required = true) \/
     (newOk = true /\ v <> "" /\ Atoi v = None)) /\
  (forall line rest i,
     Atoi line = Some i ->
     Choose choices defaultValue required newOk (line :: rest) =
     if (1 <=? i)%Z && (i <=? Z.of_nat (List.length choices))%Z
     then (Returns (nth (Z.to_nat (i - 1)) choices ""), rest)
     else Choose choices defaultValue required newOk rest).
Proof.
  split.
  - induction input as [|l input IH]; intros v rest; cbn [Choose]; [discriminate|].
    destruct (Atoi l) as [i|] eqn:Ea.
    + destruct (Z.leb_spec 1 i); cbn [andb]; [|apply IH].
      destruct (Z.leb_spec i (Z.of_nat (List.length choices))); [|apply IH].
      intros E. inversion E; subst. left. apply nth_In. lia.
    + destruct (existsb (String.eqb l) choices) eqn:Ex.
      * intros E. inversion E; subst. left.
        apply existsb_exists in Ex. destruct Ex as [x [Hin Hx]].
        apply String.eqb_eq in Hx. now subst.
      * destruct (String.eqb_spec l "") as [-> | Hne].
        -- destruct required; cbn [negb].
           ++ destruct (String.eqb_spec defaultValue "") as [Hd | Hd]; cbn [negb];
                [apply IH|].
              intros E. inversion E; subst. right. right. left. auto.
           ++ intros E. inversion E; subst. right. left. auto.
        -- destruct newOk; [|apply IH].
           intros E. inversion E; subst. right. right. right. auto.
  - intros line rest i Ha. cbn [Choose]. now rewrite Ha.
Qed.

Lemma Choose_answers_witness :
  Choose ["3"; "2"; "1"] "" true true ("9" :: "2" :: ["x"]) = (Returns "2", ["x"]) /\
  Choose ["3"; "2"; "1"] "" true true ("1" :: ["x"]) = (Returns "3", ["x"]).
Proof.
  destruct (Choose_answers ["3"; "2"; "1"] "" true true) as [_ H].
  split.
  - rewrite (H "9" ("2" :: ["x"]) 9%Z eq_refl). cbn [andb Z.leb].
    rewrite (H "2" ["x"] 2%Z eq_refl). reflexivity.
  - rewrite (H "1" ["x"] 1%Z eq_refl). reflexivity.
Defined.

(** X27. [Enter] never returns an empty value when one is required: it
    returns the first non-empty line, or the default at the first empty
    line when there is a default, and asks again otherwise.  When no value
    is required it returns the first line as it is. *)
Theorem Enter_required (defaultValue : string) (required : bool) :
  (forall input v rest,
     Enter defaultValue required input = (Returns v, rest) ->
     required = true -> v <> "") /\
  (forall line rest,
     Enter defaultValue required (line :: rest) =
     if negb required || negb (line =? "") then (Returns line, rest)
     else if negb (defaultValue =? "") then (Returns defaultValue, rest)
     else Enter defaultValue required rest) /\
  (forall empties line rest,
     required = true -> defaultValue = "" ->
     forallb (String.eqb "") empties = true -> line <> "" ->
     Enter defaultValue required (empties ++ line :: rest) = (Returns line, rest)).
Proof.
  split; [|split].
  - induction input as [|l input IH]; intros v rest; cbn [Enter]; [discriminate|].
    intros H Hr. subst required. cbn [negb orb] in H.
    destruct (String.eqb_spec l "") as [-> | Hne]; cbn [negb] in H.
    + destruct (String.eqb_spec defaultValue "") as [Hd | Hd]; cbn [negb] in H.
      * now apply (IH v rest).
      * inversion H; subst. exact Hd.
    + inversion H; subst. exact Hne.
  - reflexivity.
  - intros empties line rest -> -> He Hne.
    induction empties as [|e empties IH]; cbn [app Enter negb orb].
    + destruct (String.eqb_spec line ""); [contradiction | reflexivity].
    + cbn [forallb] in He. apply andb_prop in He. destruct He as [H1 H2].
      apply String.eqb_eq in H1. subst e. cbn. now apply IH.
Qed.

Lemma Enter_required_witness :
  Enter "" true ([""; ""] ++ "name" :: ["more"]) = (Returns "name", ["more"]).
Proof.
  destruct (Enter_required "" true) as [_ [_ H]].
  apply H; [reflexivity | reflexivity | reflexivity | discriminate].
Defined.

End ConfigUIFacts.

(** ** The retry schedule of the client *)
Module BackoffMoreFacts.
Import GoInt Backoff.
Open Scope Z_scope.



End BackoffMoreFacts.
